(** * Service worker of the Quran app (sw.js): caching strategies and
      cache lifecycle, as a shallow embedding.

    The script is translated function by function.  What the script calls
    on the platform (the Cache API, [fetch], [String.prototype.includes],
    [skipWaiting], [clients.claim]) is modelled below under "Platform";
    what the script itself defines keeps its name ([CACHE_NAME],
    [STATIC_ASSETS], [cacheFirst], [networkFirst], [isAPIRequest],
    [isAllowedAPI]); the anonymous event listeners are called
    [on_install], [on_activate], [on_fetch] and [on_message]. *)

From Stdlib Require Import ZArith String.
From stdpp Require Import gmap strings list fin_maps.

Local Open Scope Z_scope.

(** ** Data *)

(** A parsed URL: its serialisation without the fragment ([base],
    query included), the fragment as [url.hash] gives it (empty, or
    starting with the number sign), and the two components the script
    reads.  The Cache API compares requests by their URL with the
    fragment excluded. *)
Record URL := mkURL {
  base : string;
  hash : string;
  origin : string;
  hostname : string
}.

(** [url.href]: the whole serialisation, fragment included. *)
Definition href (u : URL) : string := base u +:+ hash u.

(** A request: [request.url] (already parsed, as [new URL(request.url)]
    gives it), [request.method] and [request.mode]. *)
Record Request := mkRequest {
  url : URL;
  method : string;
  mode : string
}.

(** A response snapshot: status code and body bytes. *)
Record Response := mkResponse {
  status : Z;
  body : string
}.

(** The request identity that addresses a cache entry: method and
    absolute URL, query included and fragment excluded. *)
Definition identity (request : Request) : string * string :=
  (method request, base (url request)).

(** [response.clone()]: an independent copy of status and body. *)
Definition clone (response : Response) : Response :=
  mkResponse (status response) (body response).

(** The outcome of a network fetch: a response of any status, or a
    transport-level failure (the promise rejects). *)
Inductive FetchResult :=
| Fulfilled (response : Response)
| Rejected.

Definition Network := Request -> FetchResult.

(** What a rejected promise carries. *)
Inductive Error :=
| TransportFailure (request : Request)
| AddAllRejected.

Inductive Result (A : Type) :=
| Ok (a : A)
| Throw (e : Error).
Arguments Ok {A} a.
Arguments Throw {A} e.

(** A [cache.put] that has been called but whose promise has not settled
    yet; the cache it was called on is referred to by its name.  The
    script never awaits [cache.put]. *)
Record PendingPut := mkPendingPut {
  put_cache : string;
  put_request : Request;
  put_response : Response
}.

(** The state the script runs in.  [caches] is the platform's name to
    cache map, in creation order (the order [caches.keys()] and
    [caches.match] use); a cache maps request identities to responses.
    [fetched] records every request handed to the network. *)
Record World := mkWorld {
  location : URL;
  caches : list (string * gmap (string * string) Response);
  pending : list PendingPut;
  fetched : list Request;
  skipWaitingFlag : bool;
  clientsClaimed : bool
}.

Definition set_caches (cs : list (string * gmap (string * string) Response))
    (w : World) : World :=
  mkWorld (location w) cs (pending w) (fetched w)
          (skipWaitingFlag w) (clientsClaimed w).

Definition add_pending (p : PendingPut) (w : World) : World :=
  mkWorld (location w) (caches w) (pending w ++ [p]) (fetched w)
          (skipWaitingFlag w) (clientsClaimed w).

Definition clear_pending (w : World) : World :=
  mkWorld (location w) (caches w) [] (fetched w)
          (skipWaitingFlag w) (clientsClaimed w).

Definition log_fetch (request : Request) (w : World) : World :=
  mkWorld (location w) (caches w) (pending w) (fetched w ++ [request])
          (skipWaitingFlag w) (clientsClaimed w).

Definition log_fetches (requests : list Request) (w : World) : World :=
  mkWorld (location w) (caches w) (pending w) (fetched w ++ requests)
          (skipWaitingFlag w) (clientsClaimed w).

Definition set_skipWaiting (w : World) : World :=
  mkWorld (location w) (caches w) (pending w) (fetched w)
          true (clientsClaimed w).

Definition set_claimed (w : World) : World :=
  mkWorld (location w) (caches w) (pending w) (fetched w)
          (skipWaitingFlag w) true.

(** ** The monad of the script: state and exceptions *)

Definition M (A : Type) : Type := World -> Result A * World.

Definition ret {A} (a : A) : M A := fun w => (Ok a, w).

Definition bind {A B} (m : M A) (k : A -> M B) : M B :=
  fun w =>
    match m w with
    | (Ok a, w') => k a w'
    | (Throw e, w') => (Throw e, w')
    end.

Definition throw {A} (e : Error) : M A := fun w => (Throw e, w).

(** [try { m } catch (error) { handler error }]: the effects of [m] up
    to the throw stay. *)
Definition try_catch {A} (m : M A) (handler : Error -> M A) : M A :=
  fun w =>
    match m w with
    | (Ok a, w') => (Ok a, w')
    | (Throw e, w') => handler e w'
    end.

Notation "'let*' x ':=' m 'in' k" := (bind m (fun x => k))
  (at level 10, x name, m at level 100, k at level 200).

Fixpoint mapM_ {A} (f : A -> M unit) (l : list A) : M unit :=
  match l with
  | [] => ret tt
  | x :: l' => let* _ := f x in mapM_ f l'
  end.

(** ** Platform *)

(** [s.includes(d)]: [d] occurs in [s] at some position. *)
Fixpoint includes (s d : string) : bool :=
  String.prefix d s ||
  match s with
  | EmptyString => false
  | String _ s' => includes s' d
  end.

(** The cache registered under [name], if any. *)
Fixpoint storage_lookup (name : string)
    (cs : list (string * gmap (string * string) Response))
    : option (gmap (string * string) Response) :=
  match cs with
  | [] => None
  | (n, c) :: cs' =>
      if decide (n = name) then Some c else storage_lookup name cs'
  end.

(** [caches.open(name)] creates an empty cache when none has the name. *)
Definition storage_open (name : string)
    (cs : list (string * gmap (string * string) Response))
    : list (string * gmap (string * string) Response) :=
  match storage_lookup name cs with
  | Some _ => cs
  | None => cs ++ [(name, ∅)]
  end.

Definition storage_update (name : string)
    (f : gmap (string * string) Response -> gmap (string * string) Response)
    (cs : list (string * gmap (string * string) Response))
    : list (string * gmap (string * string) Response) :=
  (fun nc => if decide (nc.1 = name) then (nc.1, f nc.2) else nc) <$> cs.

Definition storage_delete (name : string)
    (cs : list (string * gmap (string * string) Response))
    : list (string * gmap (string * string) Response) :=
  filter (fun nc => nc.1 ≠ name) cs.

(** Request matching of the Cache API with default options: a request
    whose method is not GET matches nothing; otherwise the entry with
    the request's URL, compared with the fragment excluded.  (Headers,
    hence [Vary], are not modelled.) *)
Definition entry_match (c : gmap (string * string) Response)
    (request : Request) : option Response :=
  if decide (method request = "GET") then c !! identity request else None.

(** [caches.match]: the first cache, in creation order, with a match. *)
Fixpoint storage_match (request : Request)
    (cs : list (string * gmap (string * string) Response))
    : option Response :=
  match cs with
  | [] => None
  | (_, c) :: cs' =>
      match entry_match c request with
      | Some r => Some r
      | None => storage_match request cs'
      end
  end.

(** The entry stored for an identity in the cache [name]; [None] also
    when there is no such cache. *)
Definition stored (name : string) (id : string * string)
    (cs : list (string * gmap (string * string) Response))
    : option Response :=
  match storage_lookup name cs with
  | Some c => c !! id
  | None => None
  end.

Definition entry_of (name : string) (id : string * string) (w : World)
    : option Response :=
  stored name id (caches w).

(** A relative URL of the script, resolved against its own location;
    the paths the script resolves ([STATIC_ASSETS], "/offline.html")
    carry no fragment. *)
Definition resolve (w : World) (path : string) : URL :=
  mkURL (origin (location w) +:+ path) "" (origin (location w))
        (hostname (location w)).

(** [new Request(path)], as the Cache API builds it from a string. *)
Definition request_of (w : World) (path : string) : Request :=
  mkRequest (resolve w path) "GET" "cors".

Definition caches_open (name : string) : M string :=
  fun w => (Ok name, set_caches (storage_open name (caches w)) w).

(** What [cache.match(request)] finds in the cache [name]. *)
Definition matched (name : string) (request : Request) (w : World)
    : option Response :=
  match storage_lookup name (caches w) with
  | Some c => entry_match c request
  | None => None
  end.

Definition cache_match (cache : string) (request : Request)
    : M (option Response) :=
  fun w => (Ok (matched cache request w), w).

(** [cache.put(request, response)] called without [await]: the write is
    dispatched, its promise is dropped. *)
Definition cache_put (cache : string) (request : Request)
    (response : Response) : M unit :=
  fun w => (Ok tt, add_pending (mkPendingPut cache request response) w).

Definition caches_match (path : string) : M (option Response) :=
  fun w => (Ok (storage_match (request_of w path) (caches w)), w).

Definition caches_keys : M (list string) :=
  fun w => (Ok (caches w).*1, w).

Definition caches_delete (name : string) : M unit :=
  fun w => (Ok tt, set_caches (storage_delete name (caches w)) w).

Definition skipWaiting : M unit := fun w => (Ok tt, set_skipWaiting w).

Definition clients_claim : M unit := fun w => (Ok tt, set_claimed w).

(** What a settled [cache.put] does to the store: it rejects (and writes
    nothing) for a method other than GET and for a 206 response;
    otherwise it replaces the entry of the request's identity in its
    cache.  A cache deleted in the meantime is no longer in the store.
    (URL schemes and headers are not modelled.) *)
Definition commit_put (cs : list (string * gmap (string * string) Response))
    (p : PendingPut) : list (string * gmap (string * string) Response) :=
  if decide (method (put_request p) = "GET") then
    if status (put_response p) =? 206 then cs
    else storage_update (put_cache p)
           (insert (identity (put_request p)) (put_response p)) cs
  else cs.

(** The dispatched writes settle, in the order they were issued. *)
Definition settle (w : World) : World :=
  clear_pending (set_caches (foldl commit_put (caches w) (pending w)) w).

(** The entries of a batch written one after the other into a cache,
    and into the cache [cache] of the store. *)
Definition insert_all (l : list (Request * Response))
    (c : gmap (string * string) Response) : gmap (string * string) Response :=
  foldl (fun c qr => <[identity qr.1 := qr.2]> c) c l.

Definition write_batch (cache : string) (l : list (Request * Response))
    (cs : list (string * gmap (string * string) Response))
    : list (string * gmap (string * string) Response) :=
  foldl (fun cs qr => storage_update cache (insert (identity qr.1) qr.2) cs)
        cs l.

Section Network.

Variable net : Network.

(** [fetch(request)]: resolves with the response whatever its status,
    rejects on a transport failure. *)
Definition fetch (request : Request) : M Response :=
  fun w =>
    match net request with
    | Fulfilled r => (Ok r, log_fetch request w)
    | Rejected => (Throw (TransportFailure request), log_fetch request w)
    end.

(** A response [cache.addAll] accepts: status in the ok range and not
    206. *)
Definition addable (r : Response) : bool :=
  (200 <=? status r) && (status r <=? 299) && negb (status r =? 206).

(** The responses of a batch of requests, if every one is fetched and
    accepted. *)
Fixpoint fetch_batch (requests : list Request)
    : option (list (Request * Response)) :=
  match requests with
  | [] => Some []
  | q :: qs =>
      match net q with
      | Fulfilled r =>
          if addable r then
            match fetch_batch qs with
            | Some l => Some ((q, r) :: l)
            | None => None
            end
          else None
      | Rejected => None
      end
  end.

(** [cache.addAll(paths)]: every request is handed to the network; when
    all responses are accepted they are written together, otherwise the
    promise rejects and nothing is written. *)
Definition cache_addAll (cache : string) (paths : list string) : M unit :=
  fun w =>
    let requests := request_of w <$> paths in
    let w1 := log_fetches requests w in
    match fetch_batch requests with
    | Some l => (Ok tt, set_caches (write_batch cache l (caches w1)) w1)
    | None => (Throw AddAllRejected, w1)
    end.

(** ** The script *)

Definition CACHE_NAME : string := "quran-app-v2.0".
Definition RUNTIME_CACHE : string := "quran-runtime-v2.0".

Definition STATIC_ASSETS : list string :=
  [ "/";
    "/index.html";
    "/styles.css";
    "/js/app.js";
    "/manifest.json";
    "/logo.png";
    "/splash.png";
    "/favicon.png" ].

(** The install listener; the result is what [event.waitUntil]
    receives. *)
Definition on_install : M unit :=
  let* cache := caches_open CACHE_NAME in
  let* _ := cache_addAll cache STATIC_ASSETS in
  skipWaiting.

(** The names the activate listener hands to [caches.delete]. *)
Definition stale_names (cacheNames : list string) : list string :=
  filter (fun name => name ≠ CACHE_NAME ∧ name ≠ RUNTIME_CACHE) cacheNames.

Definition on_activate : M unit :=
  let* cacheNames := caches_keys in
  let* _ := mapM_ caches_delete (stale_names cacheNames) in
  clients_claim.

(** The constant local to [isAPIRequest]. *)
Definition apiDomains : list string :=
  [ "api.quran.com";
    "api.aladhan.com";
    "cdn.jsdelivr.net";
    "api.bigdatacloud.net" ].

Definition isAPIRequest (url : URL) : bool :=
  existsb (fun domain => includes (hostname url) domain) apiDomains.

(** The constant local to [isAllowedAPI]. *)
Definition allowedDomains : list string :=
  [ "api.quran.com";
    "api.aladhan.com";
    "cdn.jsdelivr.net";
    "api.bigdatacloud.net";
    "server";
    ".mp3quran.net";
    "fonts.googleapis.com";
    "fonts.gstatic.com";
    "raw.githubusercontent.com" ].

Definition isAllowedAPI (url : URL) : bool :=
  existsb (fun domain => includes (hostname url) domain) allowedDomains.

(** A returned value is a response or [undefined] ([None]). *)
Definition cacheFirst (request : Request) : M (option Response) :=
  let* cache := caches_open CACHE_NAME in
  let* cached := cache_match cache request in
  match cached with
  | Some r => ret (Some r)
  | None =>
      try_catch
        (let* response := fetch request in
         let* _ :=
           if status response =? 200
           then cache_put cache request (clone response)
           else ret tt in
         ret (Some response))
        (fun error =>
           if String.eqb (mode request) "navigate"
           then caches_match "/offline.html"
           else throw error)
  end.

Definition networkFirst (request : Request) : M (option Response) :=
  let* cache := caches_open RUNTIME_CACHE in
  try_catch
    (let* response := fetch request in
     let* _ :=
       if status response =? 200
       then cache_put cache request (clone response)
       else ret tt in
     ret (Some response))
    (fun error =>
       let* cached := cache_match cache request in
       match cached with
       | Some r => ret (Some r)
       | None => throw error
       end).

(** What the fetch listener does with the event: it returns without
    answering, or hands a strategy's promise to [event.respondWith]. *)
Inductive Interception :=
| NotIntercepted
| RespondWith (outcome : Result (option Response)).

Definition respondWith (m : M (option Response)) (w : World)
    : Interception * World :=
  (RespondWith (m w).1, (m w).2).

Definition on_fetch (request : Request) (w : World)
    : Interception * World :=
  let url := url request in
  if negb (String.eqb (method request) "GET") then (NotIntercepted, w)
  else if negb (String.eqb (origin url) (origin (location w)))
          && negb (isAllowedAPI url)
  then (NotIntercepted, w)
  else if isAPIRequest url then respondWith (networkFirst request) w
  else respondWith (cacheFirst request) w.

End Network.

(** The message listener, on [event.data.action]. *)
Definition on_message (action : string) : M unit :=
  let* _ := if String.eqb action "skipWaiting" then skipWaiting else ret tt in
  if String.eqb action "clearCache"
  then let* names := caches_keys in mapM_ caches_delete names
  else ret tt.

(** ** The push listener *)

Inductive PushError :=
| SyntaxError
| TypeError.

Section Push.

(** The numbers of the platform, and which of them count as false
    (zero and NaN). *)
Variable Number : Type.
Variable number_falsy : Number -> bool.

(** A value [JSON.parse] can return. *)
#[warnings="-register-all"] Inductive JSON :=
| JNull
| JBool (b : bool)
| JNumber (x : Number)
| JString (s : string)
| JArray (items : list JSON)
| JObject (members : list (string * JSON)).

(** [event.data] of a push event: [null], data that [json()] cannot
    parse, or data that parses to a value. *)
Inductive PushPayload :=
| NoPayload
| Unparsable
| Parsed (v : JSON).

(** The member of an object under a key; of two members with the same
    key [JSON.parse] keeps the later one. *)
Fixpoint member (key : string) (members : list (string * JSON))
    : option JSON :=
  match members with
  | [] => None
  | (k, v) :: rest =>
      match member key rest with
      | Some v' => Some v'
      | None => if String.eqb k key then Some v else None
      end
  end.

(** [v.key] for a key that no prototype defines ("title" and "body"
    are such keys): a TypeError on [null] (here [None]), the member of
    an object, [undefined] (here [Some None]) on anything else. *)
Definition read (v : JSON) (key : string) : option (option JSON) :=
  match v with
  | JNull => None
  | JObject members => Some (member key members)
  | _ => Some None
  end.

(** Whether a value, or [undefined], counts as true. *)
Definition truthy (v : option JSON) : bool :=
  match v with
  | None => false
  | Some JNull => false
  | Some (JBool b) => b
  | Some (JNumber x) => negb (number_falsy x)
  | Some (JString s) => negb (String.eqb s "")
  | Some (JArray _) => true
  | Some (JObject _) => true
  end.

(** [v || fallback]. *)
Definition or_else (v : option JSON) (fallback : JSON) : JSON :=
  match v with
  | Some x => if truthy v then x else fallback
  | None => fallback
  end.

(** The arguments of [showNotification]. *)
Record Notification := mkNotification {
  n_title : JSON;
  n_body : JSON;
  n_icon : string;
  n_badge : string;
  n_vibrate : list Z;
  n_data : JSON;
  n_actions : list (string * string)
}.

(** What the push listener does: it calls [showNotification], or an
    exception leaves it before that. *)
Inductive PushOutcome :=
| Shown (n : Notification)
| PushThrows (e : PushError).

Definition on_push (payload : PushPayload) : PushOutcome :=
  match
    match payload with
    | NoPayload => Some (JObject [])
    | Unparsable => None
    | Parsed v => Some v
    end
  with
  | None => PushThrows SyntaxError
  | Some data =>
      match read data "title" with
      | None => PushThrows TypeError
      | Some data_title =>
          let title := or_else data_title (JString "حان وقت الصلاة") in
          match read data "body" with
          | None => PushThrows TypeError
          | Some data_body =>
              Shown (mkNotification
                       title
                       (or_else data_body (JString "لا تفوت الصلاة"))
                       "/icons/icon-192x192.png"
                       "/icons/badge-72x72.png"
                       [200; 100; 200]
                       data
                       [("open", "فتح التطبيق"); ("close", "إغلاق")])
          end
      end
  end.

End Push.

Arguments JNull {Number}.
Arguments JBool {Number} b.
Arguments JNumber {Number} x.
Arguments JString {Number} s.
Arguments JArray {Number} items.
Arguments JObject {Number} members.
Arguments NoPayload {Number}.
Arguments Unparsable {Number}.
Arguments Parsed {Number} v.
Arguments read {Number} v key.
Arguments Shown {Number} n.
Arguments PushThrows {Number} e.
Arguments mkNotification {Number}.
Arguments n_title {Number}.
Arguments n_body {Number}.
Arguments n_data {Number}.

(** ** Notions the properties are stated with *)

(** [d] appears somewhere in [s]. *)
Definition occurs_in (d s : string) : Prop :=
  exists pre post : string, s = pre +:+ d +:+ post.

(** A fetch that [cache.addAll] accepts. *)
Definition accepted (result : FetchResult) : Prop :=
  exists r, result = Fulfilled r /\ addable r = true.

(** The names the activate listener keeps. *)
Definition current (name : string) : Prop :=
  name = CACHE_NAME \/ name = RUNTIME_CACHE.

(** Every entry of the store is keyed by the identity of a GET
    request. *)
Definition get_only (cs : list (string * gmap (string * string) Response))
    : Prop :=
  forall name c id r, (name, c) ∈ cs -> c !! id = Some r -> id.1 = "GET".

(** One step of the worker's life: a listener runs, a strategy is called
    on some request (by the fetch listener or by anyone else), or the
    writes dispatched so far settle. *)
Inductive step : World -> World -> Prop :=
| step_fetch (net : Network) (request : Request) (w : World) :
    step w (on_fetch net request w).2
| step_cacheFirst (net : Network) (request : Request) (w : World) :
    step w (cacheFirst net request w).2
| step_networkFirst (net : Network) (request : Request) (w : World) :
    step w (networkFirst net request w).2
| step_settle (w : World) :
    step w (settle w)
| step_install (net : Network) (w : World) :
    step w (on_install net w).2
| step_activate (w : World) :
    step w (on_activate w).2
| step_message (action : string) (w : World) :
    step w (on_message action w).2.

(** Every entry of the store satisfies [P], which may depend on the
    name of the generation. *)
Definition entries_sat (P : string -> Response -> Prop)
    (cs : list (string * gmap (string * string) Response)) : Prop :=
  forall name c id r, (name, c) ∈ cs -> c !! id = Some r -> P name r.

(** No error response is cached or about to be: every dispatched write
    carries status 200, every entry has a status [cache.addAll] accepts,
    and outside the static generation every entry has status 200. *)
Definition cached_ok (w : World) : Prop :=
  (forall p, p ∈ pending w -> status (put_response p) = 200) /\
  entries_sat (fun name r =>
                 addable r = true /\ (name ≠ CACHE_NAME -> status r = 200))
              (caches w).

(** ** Examples *)

Definition ex_location : URL :=
  mkURL "https://quran.example/" "" "https://quran.example" "quran.example".

Definition ex_world : World := mkWorld ex_location [] [] [] false false.

Definition ex_page : Request :=
  mkRequest (mkURL "https://quran.example/surah/1" "" "https://quran.example"
                   "quran.example") "GET" "navigate".

Definition ex_post : Request :=
  mkRequest (mkURL "https://quran.example/favorite" "" "https://quran.example"
                   "quran.example") "POST" "cors".

Definition ex_ok : Response := mkResponse 200 "bismillah".

Definition net_ok : Network := fun _ => Fulfilled ex_ok.
Definition net_down : Network := fun _ => Rejected.

(** A network on which the third asset of the manifest cannot be
    fetched. *)
Definition net_styles_down : Network :=
  fun request =>
    if String.eqb (base (url request)) "https://quran.example/styles.css"
    then Rejected else Fulfilled ex_ok.

(** The state after a successful install on an empty store. *)
Definition ex_installed : World := (on_install net_ok ex_world).2.

Definition ex_logo : Request := request_of ex_world "/logo.png".

Definition ex_api : Request :=
  mkRequest (mkURL "https://api.quran.com/v4/chapters" ""
                   "https://api.quran.com" "api.quran.com") "GET" "cors".

(** Requests that differ from a stored one by their fragment only. *)
Definition ex_logo_top : Request :=
  mkRequest (mkURL "https://quran.example/logo.png" "#top"
                   "https://quran.example" "quran.example") "GET" "no-cors".

Definition ex_index_about : Request :=
  mkRequest (mkURL "https://quran.example/index.html" "#about"
                   "https://quran.example" "quran.example") "GET" "navigate".

Definition ex_api_x : Request :=
  mkRequest (mkURL "https://api.quran.com/v4/chapters" "#x"
                   "https://api.quran.com" "api.quran.com") "GET" "cors".

Definition ex_new : Response := mkResponse 200 "NEW".
Definition net_new : Network := fun _ => Fulfilled ex_new.
Definition net_404 : Network :=
  fun _ => Fulfilled (mkResponse 404 "not found").

(** The state after [ex_api] was answered from the network and the
    write settled. *)
Definition ex_api_cached : World :=
  settle (networkFirst net_ok ex_api ex_world).2.

Definition ex_doc : Response := mkResponse 200 "offline".

(** A deployment on a host whose name contains an API domain. *)
Definition ex_cdn_world : World :=
  mkWorld (mkURL "https://cdn.jsdelivr.net/gh/quran/app/" ""
                 "https://cdn.jsdelivr.net" "cdn.jsdelivr.net")
          [] [] [] false false.

(** Two states that differ in the runtime generation only. *)
Definition ex_runtime_doc : World :=
  mkWorld ex_location
    [(CACHE_NAME, ∅);
     (RUNTIME_CACHE,
      {[ identity (request_of ex_world "/offline.html") := ex_doc ]})]
    [] [] false false.

Definition ex_runtime_empty : World :=
  mkWorld ex_location [(CACHE_NAME, ∅); (RUNTIME_CACHE, ∅)]
    [] [] false false.

(** ** Lemmas on the platform model *)

Lemma set_caches_same w : set_caches (caches w) w = w.
Proof. by destruct w. Qed.

Lemma storage_lookup_app name cs n c :
  storage_lookup name (cs ++ [(n, c)]) =
  match storage_lookup name cs with
  | Some c' => Some c'
  | None => if decide (n = name) then Some c else None
  end.
Proof.
  induction cs as [|[n' c'] cs IH]; simpl; [done|].
  by destruct (decide (n' = name)).
Qed.

Lemma storage_open_present name cs c :
  storage_lookup name cs = Some c -> storage_open name cs = cs.
Proof. unfold storage_open. by intros ->. Qed.

Lemma storage_lookup_open name cs :
  storage_lookup name (storage_open name cs) =
  Some (default ∅ (storage_lookup name cs)).
Proof.
  unfold storage_open.
  destruct (storage_lookup name cs) as [c|] eqn:E; simpl; [done|].
  rewrite storage_lookup_app, E. by rewrite decide_True.
Qed.

Lemma storage_lookup_open_ne name n cs :
  n ≠ name -> storage_lookup n (storage_open name cs) = storage_lookup n cs.
Proof.
  intros Hne. unfold storage_open.
  destruct (storage_lookup name cs); [done|].
  rewrite storage_lookup_app.
  destruct (storage_lookup n cs); [done|]. by rewrite decide_False.
Qed.

(** Opening a cache adds no entry anywhere. *)
Lemma entry_of_open name n id w :
  entry_of n id (set_caches (storage_open name (caches w)) w) = entry_of n id w.
Proof.
  unfold entry_of, stored; simpl.
  destruct (decide (n = name)) as [->|Hne].
  - rewrite storage_lookup_open.
    by destruct (storage_lookup name (caches w)).
  - by rewrite storage_lookup_open_ne.
Qed.

Lemma storage_lookup_update name f n cs :
  storage_lookup n (storage_update name f cs) =
  if decide (n = name) then f <$> storage_lookup n cs
  else storage_lookup n cs.
Proof.
  unfold storage_update.
  induction cs as [|[n' c'] cs IH]; [by destruct (decide (n = name))|].
  rewrite fmap_cons. cbn [fst snd storage_lookup].
  destruct (decide (n' = name)) as [->|Hn']; cbn [storage_lookup].
  - destruct (decide (name = n)) as [->|Hn]; [by rewrite decide_True|].
    by rewrite IH.
  - destruct (decide (n' = n)) as [->|Hn]; [by rewrite decide_False|].
    by rewrite IH.
Qed.

Lemma clone_same r : clone r = r.
Proof. by destruct r. Qed.

Lemma matched_open name n request w :
  matched n request (set_caches (storage_open name (caches w)) w) =
  matched n request w.
Proof.
  unfold matched; simpl.
  destruct (decide (n = name)) as [->|Hne].
  - rewrite storage_lookup_open.
    destruct (storage_lookup name (caches w)); simpl; [done|].
    unfold entry_match. by destruct (decide _).
  - by rewrite storage_lookup_open_ne.
Qed.

Lemma matched_GET name request w :
  method request = "GET" ->
  matched name request w = entry_of name (identity request) w.
Proof.
  intros Hget. unfold matched, entry_of, stored, entry_match.
  destruct (storage_lookup name (caches w)); [|done].
  by rewrite decide_True.
Qed.

Lemma append_cons a (s t : string) : String a s +:+ t = String a (s +:+ t).
Proof. reflexivity. Qed.

Lemma append_nil (t : string) : "" +:+ t = t.
Proof. reflexivity. Qed.

Lemma storage_lookup_elem name cs c :
  storage_lookup name cs = Some c -> (name, c) ∈ cs.
Proof.
  induction cs as [|[n c'] cs IH]; simpl; [done|].
  destruct (decide (n = name)) as [->|Hne].
  - intros [= ->]. by left.
  - intros Hc. right. by apply IH.
Qed.

(** In a store keyed by GET identities a request with another method
    has no entry. *)
Lemma entry_of_non_GET name request w :
  get_only (caches w) ->
  method request ≠ "GET" ->
  entry_of name (identity request) w = None.
Proof.
  intros Hw Hmethod. unfold entry_of, stored.
  destruct (storage_lookup name (caches w)) as [c|] eqn:Hc; [|done].
  destruct (c !! identity request) as [r|] eqn:Hr; [|done].
  apply storage_lookup_elem in Hc.
  destruct Hmethod. apply (Hw name c (identity request) r Hc Hr).
Qed.

(** There [cache.match] finds exactly the entry of the identity. *)
Lemma matched_entry_of name request w :
  method request = "GET" \/ get_only (caches w) ->
  matched name request w = entry_of name (identity request) w.
Proof.
  intros [Hget|Hw]; [by apply matched_GET|].
  destruct (decide (method request = "GET")) as [Hget|Hmethod];
    [by apply matched_GET|].
  rewrite entry_of_non_GET by done.
  unfold matched, entry_match.
  destruct (storage_lookup name (caches w)); [|done].
  by rewrite decide_False.
Qed.

Lemma prefix_spec d s :
  String.prefix d s = true <-> exists post : string, s = d +:+ post.
Proof.
  revert s. induction d as [|a d IH]; intros s.
  - split; [intros _; by exists s|]. by destruct s.
  - destruct s as [|b s]; cbn [String.prefix].
    + split; [done|]. by intros [post Hpost].
    + setoid_rewrite append_cons.
      destruct (Ascii.ascii_dec a b) as [->|Hab].
      * rewrite IH. split; intros [post Hpost]; exists post; congruence.
      * split; [done|]. intros [post Hpost]. congruence.
Qed.

(** [includes] decides occurrence. *)
Lemma includes_spec s d : includes s d = true <-> occurs_in d s.
Proof.
  unfold occurs_in. induction s as [|a s IH].
  - cbn [includes]. rewrite orb_false_r, prefix_spec. split.
    + intros [post Hpost]. by exists "", post.
    + intros [pre [post Hpost]]. destruct pre; [by exists post|done].
  - cbn [includes]. rewrite orb_true_iff, prefix_spec, IH. split.
    + intros [[post Hpost]|[pre [post Hpost]]].
      * by exists "", post.
      * exists (String a pre), post. by rewrite append_cons, Hpost.
    + intros [pre [post Hpost]]. destruct pre as [|b pre].
      * left. by exists post.
      * right. exists pre, post. rewrite append_cons in Hpost. congruence.
Qed.

Lemma some_includes_spec (host : string) (domains : list string) :
  existsb (fun domain => includes host domain) domains = true <->
  exists d, d ∈ domains /\ occurs_in d host.
Proof.
  rewrite existsb_exists. split; intros [d [Hd Hin]]; exists d.
  - by rewrite list_elem_of_In, <- includes_spec.
  - by rewrite <- list_elem_of_In, includes_spec.
Qed.

(** ** Settling of dispatched writes *)

Lemma storage_lookup_commit_put_is_Some cs p name :
  is_Some (storage_lookup name (commit_put cs p)) <->
  is_Some (storage_lookup name cs).
Proof.
  unfold commit_put.
  destruct (decide (method (put_request p) = "GET")); [|done].
  destruct (status (put_response p) =? 206); [done|].
  rewrite storage_lookup_update.
  destruct (decide (name = put_cache p)); [|done].
  by rewrite fmap_is_Some.
Qed.

Lemma storage_lookup_commit_all_is_Some ps cs name :
  is_Some (storage_lookup name (foldl commit_put cs ps)) <->
  is_Some (storage_lookup name cs).
Proof.
  revert cs. induction ps as [|p ps IH]; intros cs; [done|].
  cbn [foldl]. by rewrite IH, storage_lookup_commit_put_is_Some.
Qed.

(** A settled write of a GET request and a response other than 206 is
    the entry of its identity in its cache, when that cache exists. *)
Lemma stored_commit_put_same cs p :
  method (put_request p) = "GET" ->
  status (put_response p) ≠ 206 ->
  is_Some (storage_lookup (put_cache p) cs) ->
  stored (put_cache p) (identity (put_request p)) (commit_put cs p) =
  Some (put_response p).
Proof.
  intros Hget Hstatus [c Hc]. unfold stored, commit_put.
  rewrite decide_True by done.
  apply Z.eqb_neq in Hstatus. rewrite Hstatus.
  rewrite storage_lookup_update, decide_True, Hc by done. simpl.
  apply lookup_insert_eq.
Qed.

(** A settled write touches no other cache and no other identity. *)
Lemma stored_commit_put_other cs p name id :
  name ≠ put_cache p \/ id ≠ identity (put_request p) ->
  stored name id (commit_put cs p) = stored name id cs.
Proof.
  intros Hother. unfold stored, commit_put.
  destruct (decide (method (put_request p) = "GET")); [|done].
  destruct (status (put_response p) =? 206); [done|].
  rewrite storage_lookup_update.
  destruct (decide (name = put_cache p)) as [Hn|Hn]; [|done].
  destruct Hother as [Hne|Hne]; [done|].
  destruct (storage_lookup name cs); simpl; [|done].
  by rewrite lookup_insert_ne.
Qed.

Lemma stored_commit_all_other ps cs name id :
  Forall (fun p => name ≠ put_cache p) ps ->
  stored name id (foldl commit_put cs ps) = stored name id cs.
Proof.
  revert cs. induction ps as [|p ps IH]; intros cs Hps; [done|].
  inversion_clear Hps as [|? ? Hp Hps'].
  cbn [foldl]. rewrite IH by done.
  apply stored_commit_put_other. by left.
Qed.

(** ** The strategies, case by case *)

Section Strategies.

Variable net : Network.

(** [cacheFirst] on a hit. *)
Lemma cacheFirst_matched_eq request w r :
  matched CACHE_NAME request w = Some r ->
  cacheFirst net request w = (Ok (Some r), w).
Proof.
  intros Hm.
  unfold cacheFirst, bind, caches_open, cache_match.
  rewrite matched_open, Hm. unfold ret. f_equal.
  unfold matched in Hm.
  destruct (storage_lookup CACHE_NAME (caches w)) as [c|] eqn:Hc; [|done].
  by rewrite (storage_open_present _ _ _ Hc), set_caches_same.
Qed.

Lemma cacheFirst_hit_eq request w r :
  method request = "GET" ->
  entry_of CACHE_NAME (identity request) w = Some r ->
  cacheFirst net request w = (Ok (Some r), w).
Proof.
  intros Hget Hentry. apply cacheFirst_matched_eq.
  by rewrite matched_GET.
Qed.

(** [cacheFirst] after a miss, by the outcome of the fetch. *)
Lemma cacheFirst_miss_eq request w :
  matched CACHE_NAME request w = None ->
  cacheFirst net request w =
  let w0 := log_fetch request
              (set_caches (storage_open CACHE_NAME (caches w)) w) in
  match net request with
  | Fulfilled r =>
      (Ok (Some r),
       if status r =? 200
       then add_pending (mkPendingPut CACHE_NAME request (clone r)) w0
       else w0)
  | Rejected =>
      if String.eqb (mode request) "navigate"
      then (Ok (storage_match (request_of w "/offline.html") (caches w0)), w0)
      else (Throw (TransportFailure request), w0)
  end.
Proof.
  intros Hmiss.
  unfold cacheFirst, bind, caches_open, cache_match.
  rewrite matched_open, Hmiss.
  unfold try_catch, bind, fetch.
  destruct (net request) as [r|]; simpl.
  - by destruct (status r =? 200).
  - by destruct (String.eqb (mode request) "navigate").
Qed.

(** [networkFirst], by the outcome of the fetch. *)
Lemma networkFirst_eq request w :
  networkFirst net request w =
  let w0 := log_fetch request
              (set_caches (storage_open RUNTIME_CACHE (caches w)) w) in
  match net request with
  | Fulfilled r =>
      (Ok (Some r),
       if status r =? 200
       then add_pending (mkPendingPut RUNTIME_CACHE request (clone r)) w0
       else w0)
  | Rejected =>
      match matched RUNTIME_CACHE request w with
      | Some r => (Ok (Some r), w0)
      | None => (Throw (TransportFailure request), w0)
      end
  end.
Proof.
  unfold networkFirst, bind, caches_open, try_catch, bind, fetch.
  destruct (net request) as [r|]; simpl.
  - by destruct (status r =? 200).
  - unfold cache_match.
    change (matched RUNTIME_CACHE request (log_fetch request ?w'))
      with (matched RUNTIME_CACHE request w').
    rewrite matched_open.
    by destruct (matched RUNTIME_CACHE request w).
Qed.

End Strategies.

(** ** Cache-first *)

(** C1.  For every GET request whose identity has an entry in the static
    generation, [cacheFirst] returns exactly that stored entry (status
    and body), hands nothing to the network and leaves the whole state
    as it was. *)
Theorem cacheFirst_hit_no_fetch (net : Network) (request : Request)
    (w : World) (r : Response) :
  method request = "GET" ->
  entry_of CACHE_NAME (identity request) w = Some r ->
  (cacheFirst net request w).1 = Ok (Some r) /\
  fetched (cacheFirst net request w).2 = fetched w /\
  (cacheFirst net request w).2 = w.
Proof.
  intros Hget Hentry.
  by rewrite (cacheFirst_hit_eq net request w r Hget Hentry).
Qed.

Lemma cacheFirst_hit_no_fetch_witness :
  method ex_logo = "GET" /\
  entry_of CACHE_NAME (identity ex_logo) ex_installed = Some ex_ok /\
  (cacheFirst net_down ex_logo ex_installed).1 = Ok (Some ex_ok) /\
  fetched (cacheFirst net_down ex_logo ex_installed).2 =
    fetched ex_installed /\
  (cacheFirst net_down ex_logo ex_installed).2 = ex_installed.
Proof.
  split; [reflexivity|]. split; [vm_compute; reflexivity|].
  apply (cacheFirst_hit_no_fetch net_down ex_logo ex_installed ex_ok);
    [reflexivity | vm_compute; reflexivity].
Defined.


(** C2, as stated, fails: [cache.put] is called before the response is
    returned but it is not awaited.  Here a GET request misses and the
    network answers 200; when [cacheFirst] returns, the static generation
    still has no entry for the request, and a [cacheFirst] call made
    right then goes to the network a second time.  A request with
    another method is never stored: also after the writes have settled
    the next call is a miss again. *)
Lemma cacheFirst_put_not_awaited :
  (method ex_page = "GET" /\
   entry_of CACHE_NAME (identity ex_page) ex_world = None /\
   net_ok ex_page = Fulfilled ex_ok /\ status ex_ok = 200 /\
   (cacheFirst net_ok ex_page ex_world).1 = Ok (Some ex_ok) /\
   entry_of CACHE_NAME (identity ex_page)
            (cacheFirst net_ok ex_page ex_world).2 = None /\
   fetched (cacheFirst net_ok ex_page
              (cacheFirst net_ok ex_page ex_world).2).2 =
     [ex_page; ex_page]) /\
  (entry_of CACHE_NAME (identity ex_post) ex_world = None /\
   (cacheFirst net_ok ex_post ex_world).1 = Ok (Some ex_ok) /\
   entry_of CACHE_NAME (identity ex_post)
            (settle (cacheFirst net_ok ex_post ex_world).2) = None /\
   fetched (cacheFirst net_ok ex_post
              (settle (cacheFirst net_ok ex_post ex_world).2)).2 =
     [ex_post; ex_post]).
Proof. vm_compute. repeat split; reflexivity. Qed.

(** C2, amended.  For every GET request that misses in the static
    generation while the network answers 200: [cacheFirst] returns the
    fetched response and has, before returning, dispatched the write of
    its snapshot to the static generation; once the dispatched writes
    have settled, the entry of the request's identity is that response,
    and a further [cacheFirst] call for the request is a hit that returns
    it (same status, same body) without going to the network. *)
Theorem cacheFirst_miss_then_hit (net : Network) (request : Request)
    (w : World) (r : Response) :
  method request = "GET" ->
  entry_of CACHE_NAME (identity request) w = None ->
  net request = Fulfilled r ->
  status r = 200 ->
  (cacheFirst net request w).1 = Ok (Some r) /\
  pending (cacheFirst net request w).2 =
    pending w ++ [mkPendingPut CACHE_NAME request (clone r)] /\
  entry_of CACHE_NAME (identity request)
           (settle (cacheFirst net request w).2) = Some r /\
  forall net' : Network,
    cacheFirst net' request (settle (cacheFirst net request w).2) =
    (Ok (Some r), settle (cacheFirst net request w).2).
Proof.
  intros Hget Hmiss Hnet Hstatus.
  rewrite <- (matched_GET _ _ _ Hget) in Hmiss.
  rewrite (cacheFirst_miss_eq net request w Hmiss), Hnet, Hstatus.
  cbn [Z.eqb Pos.eqb fst snd].
  split; [done|]. split; [done|].
  assert (Hentry :
    entry_of CACHE_NAME (identity request)
      (settle (add_pending (mkPendingPut CACHE_NAME request (clone r))
         (log_fetch request
            (set_caches (storage_open CACHE_NAME (caches w)) w)))) = Some r).
  { unfold entry_of, settle.
    cbn [caches pending set_caches clear_pending add_pending log_fetch].
    rewrite foldl_app. cbn [foldl].
    set (p := mkPendingPut CACHE_NAME request (clone r)).
    change CACHE_NAME with (put_cache p) at 1.
    change request with (put_request p) at 1.
    rewrite stored_commit_put_same.
    - cbn [p put_response]. by rewrite clone_same.
    - done.
    - cbn [p put_response clone status]. lia.
    - apply storage_lookup_commit_all_is_Some. cbn [p put_cache].
      by rewrite storage_lookup_open. }
  split; [done|].
  intros net'. by apply cacheFirst_hit_eq.
Qed.

Lemma cacheFirst_miss_then_hit_witness :
  method ex_page = "GET" /\
  entry_of CACHE_NAME (identity ex_page) ex_world = None /\
  net_ok ex_page = Fulfilled ex_ok /\
  status ex_ok = 200 /\
  (cacheFirst net_ok ex_page ex_world).1 = Ok (Some ex_ok) /\
  pending (cacheFirst net_ok ex_page ex_world).2 =
    pending ex_world ++ [mkPendingPut CACHE_NAME ex_page (clone ex_ok)] /\
  entry_of CACHE_NAME (identity ex_page)
           (settle (cacheFirst net_ok ex_page ex_world).2) = Some ex_ok /\
  forall net' : Network,
    cacheFirst net' ex_page (settle (cacheFirst net_ok ex_page ex_world).2) =
    (Ok (Some ex_ok), settle (cacheFirst net_ok ex_page ex_world).2).
Proof.
  split; [reflexivity|]. split; [reflexivity|].
  split; [reflexivity|]. split; [reflexivity|].
  apply (cacheFirst_miss_then_hit net_ok ex_page ex_world ex_ok); reflexivity.
Defined.


(** The fragment of a URL plays no part in the cache: on the installed
    store a request for "/logo.png#top" is served the precached
    "/logo.png" without a fetch, whatever the network would answer, and
    a navigation to "/index.html#about" with the network down is served
    the precached "/index.html"; with the network down, network-first
    returns for ".../chapters#x" the entry stored for ".../chapters". *)
Example fragment_plays_no_part :
  identity ex_logo_top = identity ex_logo /\
  cacheFirst net_new ex_logo_top ex_installed =
    (Ok (Some ex_ok), ex_installed) /\
  cacheFirst net_404 ex_logo_top ex_installed =
    (Ok (Some ex_ok), ex_installed) /\
  fetched (cacheFirst net_down ex_logo_top ex_installed).2 =
    fetched ex_installed /\
  (cacheFirst net_down ex_index_about ex_installed).1 = Ok (Some ex_ok) /\
  identity ex_api_x = identity ex_api /\
  (networkFirst net_down ex_api_x ex_api_cached).1 = Ok (Some ex_ok).
Proof.
  split; [reflexivity|].
  split; [by apply cacheFirst_hit_eq; vm_compute|].
  split; [by apply cacheFirst_hit_eq; vm_compute|].
  split; [by rewrite (cacheFirst_hit_eq net_down ex_logo_top ex_installed
                        ex_ok eq_refl); vm_compute|].
  split; [by vm_compute|]. split; [reflexivity|]. by vm_compute.
Qed.

(** ** What the strategies write *)

(** The writes a [cacheFirst] call dispatches. *)
Lemma cacheFirst_pending (net : Network) (request : Request) (w : World) :
  caches (cacheFirst net request w).2 = storage_open CACHE_NAME (caches w) /\
  exists new,
    pending (cacheFirst net request w).2 = pending w ++ new /\
    (new = [] \/
     exists r, net request = Fulfilled r /\ status r = 200 /\
               new = [mkPendingPut CACHE_NAME request (clone r)]).
Proof.
  destruct (matched CACHE_NAME request w) as [r|] eqn:Hm.
  - unfold cacheFirst, bind, caches_open, cache_match.
    rewrite matched_open, Hm. cbn [ret fst snd caches set_caches pending].
    split; [done|]. exists []. split; [by rewrite app_nil_r|by left].
  - rewrite (cacheFirst_miss_eq net request w Hm).
    destruct (net request) as [r|] eqn:Hnet.
    + destruct (status r =? 200) eqn:Hs; cbn [fst snd].
      * split; [done|]. eexists. split; [done|]. right. exists r.
        apply Z.eqb_eq in Hs. done.
      * split; [done|]. exists []. split; [by rewrite app_nil_r|by left].
    + destruct (String.eqb (mode request) "navigate"); cbn [fst snd];
        (split; [done|]); exists []; (split; [by rewrite app_nil_r|by left]).
Qed.

(** The writes a [networkFirst] call dispatches. *)
Lemma networkFirst_pending (net : Network) (request : Request) (w : World) :
  caches (networkFirst net request w).2 =
    storage_open RUNTIME_CACHE (caches w) /\
  exists new,
    pending (networkFirst net request w).2 = pending w ++ new /\
    (new = [] \/
     exists r, net request = Fulfilled r /\ status r = 200 /\
               new = [mkPendingPut RUNTIME_CACHE request (clone r)]).
Proof.
  rewrite networkFirst_eq.
  destruct (net request) as [r|] eqn:Hnet.
  - destruct (status r =? 200) eqn:Hs; cbn [fst snd].
    + split; [done|]. eexists. split; [done|]. right. exists r.
      apply Z.eqb_eq in Hs. done.
    + split; [done|]. exists []. split; [by rewrite app_nil_r|by left].
  - destruct (matched RUNTIME_CACHE request w); cbn [fst snd];
      (split; [done|]); exists []; (split; [by rewrite app_nil_r|by left]).
Qed.

(** C7.  Whatever the request and the state, a call of either strategy
    adds no entry to any generation by itself, and every write it
    dispatches carries the request, a response the network gave for it,
    and status exactly 200; when the fetch completes with another
    status, the call dispatches no write at all, so the store stays as
    it was for the request's identity (and every other). *)
Theorem strategies_store_only_200 (net : Network) (request : Request)
    (w : World) (strategy : Network -> Request -> M (option Response)) :
  strategy = cacheFirst \/ strategy = networkFirst ->
  (forall name id,
     entry_of name id (strategy net request w).2 = entry_of name id w) /\
  (exists new,
     pending (strategy net request w).2 = pending w ++ new /\
     forall p, p ∈ new ->
       put_request p = request /\
       net request = Fulfilled (put_response p) /\
       status (put_response p) = 200) /\
  (forall r, net request = Fulfilled r -> status r ≠ 200 ->
     pending (strategy net request w).2 = pending w).
Proof.
  intros Hstrategy.
  assert (Hshape : exists name,
    caches (strategy net request w).2 = storage_open name (caches w) /\
    exists new,
      pending (strategy net request w).2 = pending w ++ new /\
      (new = [] \/
       exists r, net request = Fulfilled r /\ status r = 200 /\
                 new = [mkPendingPut name request (clone r)])).
  { destruct Hstrategy as [-> | ->].
    - exists CACHE_NAME. apply cacheFirst_pending.
    - exists RUNTIME_CACHE. apply networkFirst_pending. }
  destruct Hshape as [cache [Hcaches [new [Hpending Hnew]]]].
  split.
  { intros name id. unfold entry_of. rewrite Hcaches.
    apply (entry_of_open cache name id w). }
  split.
  - exists new. split; [done|]. intros p Hp.
    destruct Hnew as [-> | [r [Hnet [Hs ->]]]].
    + by apply elem_of_nil in Hp.
    + apply list_elem_of_singleton in Hp as ->.
      cbn [put_request put_response]. by rewrite clone_same.
  - intros r Hnet Hs. rewrite Hpending.
    destruct Hnew as [-> | [r' [Hnet' [Hs' _]]]]; [by rewrite app_nil_r|].
    congruence.
Qed.

Lemma strategies_store_only_200_witness :
  (cacheFirst = cacheFirst \/ cacheFirst = networkFirst) /\
  (forall name id,
     entry_of name id (cacheFirst net_ok ex_page ex_world).2 =
     entry_of name id ex_world) /\
  (exists new,
     pending (cacheFirst net_ok ex_page ex_world).2 =
       pending ex_world ++ new /\
     forall p, p ∈ new ->
       put_request p = ex_page /\
       net_ok ex_page = Fulfilled (put_response p) /\
       status (put_response p) = 200) /\
  (forall r, net_ok ex_page = Fulfilled r -> status r ≠ 200 ->
     pending (cacheFirst net_ok ex_page ex_world).2 = pending ex_world).
Proof.
  split; [left; reflexivity|].
  apply (strategies_store_only_200 net_ok ex_page ex_world cacheFirst).
  left; reflexivity.
Defined.


(** ** Network-first *)

(** C3.  For every request, in every state whose entries are keyed by
    GET identities (every state the script reaches, see [step_get_only]),
    and for every GET request in any state: [networkFirst] goes to the
    network first; a fetch that completes, with whatever status, is
    returned as it is, whatever the runtime generation holds; when the
    fetch fails at transport level, the entry stored for the request's
    identity is returned if there is one, and otherwise the transport
    failure is thrown. *)
Theorem networkFirst_fallback (net : Network) (request : Request)
    (w : World) :
  method request = "GET" \/ get_only (caches w) ->
  fetched (networkFirst net request w).2 = fetched w ++ [request] /\
  match net request with
  | Fulfilled r => (networkFirst net request w).1 = Ok (Some r)
  | Rejected =>
      match entry_of RUNTIME_CACHE (identity request) w with
      | Some r => (networkFirst net request w).1 = Ok (Some r)
      | None =>
          (networkFirst net request w).1 = Throw (TransportFailure request)
      end
  end.
Proof.
  intros Hw. rewrite networkFirst_eq, (matched_entry_of _ _ _ Hw).
  destruct (net request) as [r|]; simpl.
  - by destruct (status r =? 200).
  - by destruct (entry_of RUNTIME_CACHE (identity request) w).
Qed.

Lemma networkFirst_fallback_witness :
  (method ex_api_x = "GET" \/ get_only (caches ex_api_cached)) /\
  fetched (networkFirst net_down ex_api_x ex_api_cached).2 =
    fetched ex_api_cached ++ [ex_api_x] /\
  match net_down ex_api_x with
  | Fulfilled r =>
      (networkFirst net_down ex_api_x ex_api_cached).1 = Ok (Some r)
  | Rejected =>
      match entry_of RUNTIME_CACHE (identity ex_api_x) ex_api_cached with
      | Some r =>
          (networkFirst net_down ex_api_x ex_api_cached).1 = Ok (Some r)
      | None =>
          (networkFirst net_down ex_api_x ex_api_cached).1 =
          Throw (TransportFailure ex_api_x)
      end
  end.
Proof.
  split; [left; reflexivity|].
  apply (networkFirst_fallback net_down ex_api_x ex_api_cached).
  left; reflexivity.
Defined.

(** The instance above, evaluated: with the network down, the entry
    stored for [ex_api] comes back. *)
Example stale_entry_served :
  (networkFirst net_down ex_api ex_api_cached).1 = Ok (Some ex_ok) /\
  (networkFirst net_down ex_api ex_world).1 = Throw (TransportFailure ex_api).
Proof. vm_compute. split; reflexivity. Qed.


(** ** Routing *)

Lemma isAPIRequest_spec (u : URL) :
  isAPIRequest u = true <->
  exists d, d ∈ apiDomains /\ occurs_in d (hostname u).
Proof. apply some_includes_spec. Qed.

Lemma isAllowedAPI_spec (u : URL) :
  isAllowedAPI u = true <->
  exists d, d ∈ allowedDomains /\ occurs_in d (hostname u).
Proof. apply some_includes_spec. Qed.

(** C6.  For every GET request that passes the origin check (same
    origin, or some allowed domain occurs in the hostname), the fetch
    listener answers with [networkFirst] when some API domain occurs in
    the hostname and with [cacheFirst] when none does; [isAPIRequest]
    and [isAllowedAPI] hold exactly when one of their domains occurs
    somewhere in the hostname. *)
Theorem on_fetch_strategy (net : Network) (request : Request) (w : World) :
  method request = "GET" ->
  (origin (url request) = origin (location w) \/
   exists d, d ∈ allowedDomains /\ occurs_in d (hostname (url request))) ->
  (isAPIRequest (url request) = true <->
   exists d, d ∈ apiDomains /\ occurs_in d (hostname (url request))) /\
  (isAllowedAPI (url request) = true <->
   exists d, d ∈ allowedDomains /\ occurs_in d (hostname (url request))) /\
  ((exists d, d ∈ apiDomains /\ occurs_in d (hostname (url request))) ->
   on_fetch net request w = respondWith (networkFirst net request) w) /\
  (~ (exists d, d ∈ apiDomains /\ occurs_in d (hostname (url request))) ->
   on_fetch net request w = respondWith (cacheFirst net request) w).
Proof.
  intros Hget Hpass.
  split; [apply isAPIRequest_spec|]. split; [apply isAllowedAPI_spec|].
  assert (Hcheck : negb (String.eqb (origin (url request))
                                    (origin (location w)))
                   && negb (isAllowedAPI (url request)) = false).
  { destruct Hpass as [Horigin|Hallowed].
    - by rewrite Horigin, String.eqb_refl.
    - apply isAllowedAPI_spec in Hallowed. rewrite Hallowed.
      apply andb_false_r. }
  unfold on_fetch. rewrite Hget, Hcheck. cbn [String.eqb Ascii.eqb Bool.eqb negb].
  split.
  - intros Hapi. apply isAPIRequest_spec in Hapi. by rewrite Hapi.
  - intros Hnone. rewrite <- isAPIRequest_spec in Hnone.
    by destruct (isAPIRequest (url request)).
Qed.

Lemma on_fetch_strategy_witness :
  method ex_api = "GET" /\
  (exists d, d ∈ allowedDomains /\ occurs_in d (hostname (url ex_api))) /\
  on_fetch net_ok ex_api ex_world =
    respondWith (networkFirst net_ok ex_api) ex_world.
Proof.
  assert (Hapi : exists d, d ∈ apiDomains /\
                           occurs_in d (hostname (url ex_api))).
  { exists "api.quran.com". split; [left|]. exists "", "". reflexivity. }
  assert (Hallowed : exists d, d ∈ allowedDomains /\
                               occurs_in d (hostname (url ex_api))).
  { exists "api.quran.com". split; [left|]. exists "", "". reflexivity. }
  split; [reflexivity|]. split; [exact Hallowed|].
  apply (on_fetch_strategy net_ok ex_api ex_world eq_refl (or_intror Hallowed)).
  exact Hapi.
Defined.

(** The substring rule at work: a foreign host whose name merely
    contains "server" passes the origin check and is answered
    cache-first; a POST request is not answered at all. *)
Example routes_of_three_requests :
  isAllowedAPI (mkURL "https://evil-server.com/x" "" "https://evil-server.com"
                      "evil-server.com") = true /\
  isAPIRequest (mkURL "https://evil-server.com/x" "" "https://evil-server.com"
                      "evil-server.com") = false /\
  (on_fetch net_ok ex_post ex_world).1 = NotIntercepted /\
  (on_fetch net_ok ex_api ex_world).1 = RespondWith (Ok (Some ex_ok)).
Proof. vm_compute. repeat split; reflexivity. Qed.


(** ** Activation *)

Lemma mapM_delete_eq (names : list string) (w : World) :
  mapM_ caches_delete names w =
  (Ok tt, set_caches (foldl (fun cs n => storage_delete n cs)
                            (caches w) names) w).
Proof.
  revert w. induction names as [|n names IH]; intros w.
  - simpl. unfold ret. by rewrite set_caches_same.
  - cbn [mapM_ foldl]. unfold bind, caches_delete. rewrite IH.
    by destruct w.
Qed.

Lemma foldl_delete_filter (names : list string)
    (cs : list (string * gmap (string * string) Response)) :
  foldl (fun cs n => storage_delete n cs) cs names =
  filter (fun nc => nc.1 ∉ names) cs.
Proof.
  revert cs. induction names as [|n names IH]; intros cs.
  - cbn [foldl]. induction cs as [|nc cs IHcs]; [done|].
    rewrite filter_cons_True; [by f_equal|]. apply not_elem_of_nil.
  - cbn [foldl]. rewrite IH. unfold storage_delete.
    rewrite list_filter_filter. apply list_filter_iff.
    intros nc. rewrite not_elem_of_cons. tauto.
Qed.

Lemma elem_of_stale_names (name : string) (names : list string) :
  name ∈ stale_names names <-> name ∈ names /\ ~ current name.
Proof.
  unfold stale_names, current. rewrite list_elem_of_filter. tauto.
Qed.

Lemma filter_ext_elem {A} (P Q : A -> Prop)
    `{!forall x, Decision (P x)} `{!forall x, Decision (Q x)} (l : list A) :
  (forall x, x ∈ l -> (P x <-> Q x)) -> filter P l = filter Q l.
Proof.
  induction l as [|a l IH]; intros Hext; [done|].
  rewrite !filter_cons.
  assert (Ha : P a <-> Q a) by (apply Hext; left).
  rewrite IH by (intros x Hx; apply Hext; by right).
  destruct (decide (P a)), (decide (Q a)); tauto.
Qed.

Lemma on_activate_eq (w : World) :
  on_activate w =
  (Ok tt, set_claimed (set_caches (filter (fun nc => current nc.1)
                                          (caches w)) w)).
Proof.
  unfold on_activate, bind, caches_keys. rewrite mapM_delete_eq.
  unfold clients_claim. do 2 f_equal. cbn [caches set_caches].
  rewrite foldl_delete_filter. f_equal.
  apply filter_ext_elem. intros nc Hnc.
  rewrite elem_of_stale_names.
  assert (nc.1 ∈ (caches w).*1) by (by apply list_elem_of_fmap_2).
  destruct (decide (current nc.1)); tauto.
Qed.

Lemma stale_names_current (cs : list (string * gmap (string * string) Response)) :
  stale_names (filter (fun nc => current nc.1) cs).*1 = [].
Proof.
  induction cs as [|nc cs IH]; [done|].
  rewrite filter_cons. destruct (decide (current nc.1)) as [Hc|Hc]; [|done].
  rewrite fmap_cons. unfold stale_names in *.
  rewrite filter_cons_False; [done|]. unfold current in Hc. tauto.
Qed.

Lemma filter_current_twice (cs : list (string * gmap (string * string) Response)) :
  filter (fun nc => current nc.1) (filter (fun nc => current nc.1) cs) =
  filter (fun nc => current nc.1) cs.
Proof. rewrite list_filter_filter. apply list_filter_iff. tauto. Qed.

(** C5.  The activate listener hands to [caches.delete] exactly the
    names of existing generations other than [CACHE_NAME] and
    [RUNTIME_CACHE], and leaves in the store exactly the generations with
    one of these two names; run again on the state it produced, it finds
    no name to delete and changes nothing. *)
Theorem on_activate_exact_idempotent (w : World) :
  (on_activate w).1 = Ok tt /\
  (forall name,
     name ∈ stale_names (caches w).*1 <->
     name ∈ (caches w).*1 /\ name ≠ CACHE_NAME /\ name ≠ RUNTIME_CACHE) /\
  caches (on_activate w).2 =
    filter (fun nc => nc.1 = CACHE_NAME \/ nc.1 = RUNTIME_CACHE) (caches w) /\
  stale_names (caches (on_activate w).2).*1 = [] /\
  on_activate (on_activate w).2 = (Ok tt, (on_activate w).2).
Proof.
  rewrite !on_activate_eq. cbn [fst snd caches set_caches set_claimed].
  split; [done|]. split.
  { intros name. rewrite elem_of_stale_names. unfold current. tauto. }
  split; [done|]. split; [apply stale_names_current|].
  by rewrite filter_current_twice.
Qed.

(** ** Which generation a strategy touches *)

Lemma matched_same_cache name request w w' :
  storage_lookup name (caches w') = storage_lookup name (caches w) ->
  matched name request w' = matched name request w.
Proof. unfold matched. by intros ->. Qed.

(** C10, as stated, fails on the reads of [cacheFirst]: the two states
    below have the same static generation and differ in the runtime
    generation only, and for the same navigation request and the same
    failing network [cacheFirst] returns the entry of the runtime
    generation in one and [undefined] in the other. *)
Lemma cacheFirst_reads_runtime_generation :
  storage_lookup CACHE_NAME (caches ex_runtime_doc) =
    storage_lookup CACHE_NAME (caches ex_runtime_empty) /\
  entry_of RUNTIME_CACHE (identity (request_of ex_world "/offline.html"))
           ex_runtime_doc = Some ex_doc /\
  (cacheFirst net_down ex_page ex_runtime_doc).1 = Ok (Some ex_doc) /\
  (cacheFirst net_down ex_page ex_runtime_empty).1 = Ok None.
Proof. vm_compute. repeat split; reflexivity. Qed.

(** C10, amended.  Whatever the request: a [cacheFirst] call creates at
    most the static generation and dispatches writes to it alone, so
    that once they settle no entry of another generation has changed;
    a [networkFirst] call does the same with the runtime generation.
    What [networkFirst] returns depends on the runtime generation only.
    What [cacheFirst] returns depends on the static generation only,
    except when a navigation request misses and the fetch fails at
    transport level: it then returns what [caches.match] finds for
    "/offline.html" in all generations, in creation order. *)
Theorem strategies_generations (net : Network) (request : Request)
    (w : World) :
  (caches (cacheFirst net request w).2 =
     storage_open CACHE_NAME (caches w) /\
   exists new,
     pending (cacheFirst net request w).2 = pending w ++ new /\
     Forall (fun p => put_cache p = CACHE_NAME) new /\
     forall name id, name ≠ CACHE_NAME ->
       stored name id
         (foldl commit_put (caches (cacheFirst net request w).2) new) =
       entry_of name id w) /\
  (caches (networkFirst net request w).2 =
     storage_open RUNTIME_CACHE (caches w) /\
   exists new,
     pending (networkFirst net request w).2 = pending w ++ new /\
     Forall (fun p => put_cache p = RUNTIME_CACHE) new /\
     forall name id, name ≠ RUNTIME_CACHE ->
       stored name id
         (foldl commit_put (caches (networkFirst net request w).2) new) =
       entry_of name id w) /\
  (forall w',
     storage_lookup RUNTIME_CACHE (caches w') =
       storage_lookup RUNTIME_CACHE (caches w) ->
     (networkFirst net request w').1 = (networkFirst net request w).1) /\
  (forall w',
     storage_lookup CACHE_NAME (caches w') =
       storage_lookup CACHE_NAME (caches w) ->
     ~ (mode request = "navigate" /\
        matched CACHE_NAME request w = None /\ net request = Rejected) ->
     (cacheFirst net request w').1 = (cacheFirst net request w).1) /\
  (mode request = "navigate" ->
   matched CACHE_NAME request w = None ->
   net request = Rejected ->
   (cacheFirst net request w).1 =
   Ok (storage_match (request_of w "/offline.html")
         (storage_open CACHE_NAME (caches w)))).
Proof.
  assert (Hwrites : forall name strategy_world,
    (caches strategy_world = storage_open name (caches w) /\
     exists new,
       pending strategy_world = pending w ++ new /\
       (new = [] \/
        exists r, net request = Fulfilled r /\ status r = 200 /\
                  new = [mkPendingPut name request (clone r)])) ->
    caches strategy_world = storage_open name (caches w) /\
    exists new,
      pending strategy_world = pending w ++ new /\
      Forall (fun p => put_cache p = name) new /\
      forall n id, n ≠ name ->
        stored n id (foldl commit_put (caches strategy_world) new) =
        entry_of n id w).
  { intros name w1 [Hcaches [new [Hpending Hnew]]].
    split; [done|]. exists new. split; [done|].
    assert (Hall : Forall (fun p => put_cache p = name) new).
    { destruct Hnew as [-> | [r [_ [_ ->]]]]; [done|].
      by apply Forall_singleton. }
    split; [done|]. intros n id Hn.
    rewrite stored_commit_all_other.
    - rewrite Hcaches. apply (entry_of_open name n id w).
    - eapply Forall_impl; [exact Hall|]. intros p Hp. by rewrite Hp. }
  split; [apply Hwrites, cacheFirst_pending|].
  split; [apply Hwrites, networkFirst_pending|].
  split; [|split].
  - intros w' Hsame. rewrite !networkFirst_eq.
    rewrite (matched_same_cache _ _ _ _ Hsame).
    destruct (net request) as [r|]; [done|].
    by destruct (matched RUNTIME_CACHE request w).
  - intros w' Hsame Hnot.
    pose proof (matched_same_cache _ request _ _ Hsame) as Hm.
    destruct (matched CACHE_NAME request w) as [r|] eqn:Hw.
    + by rewrite (cacheFirst_matched_eq net request w' r Hm),
                 (cacheFirst_matched_eq net request w r Hw).
    + rewrite (cacheFirst_miss_eq net request w' Hm),
              (cacheFirst_miss_eq net request w Hw).
      destruct (net request) as [r|]; [done|].
      destruct (String.eqb (mode request) "navigate") eqn:Hmode; [|done].
      apply String.eqb_eq in Hmode. tauto.
  - intros Hmode Hmiss Hnet.
    rewrite (cacheFirst_miss_eq net request w Hmiss), Hnet, Hmode.
    done.
Qed.

Lemma strategies_generations_witness :
  mode ex_page = "navigate" /\
  matched CACHE_NAME ex_page ex_runtime_doc = None /\
  net_down ex_page = Rejected /\
  (cacheFirst net_down ex_page ex_runtime_doc).1 =
  Ok (storage_match (request_of ex_runtime_doc "/offline.html")
        (storage_open CACHE_NAME (caches ex_runtime_doc))).
Proof.
  split; [reflexivity|]. split; [reflexivity|]. split; [reflexivity|].
  destruct (strategies_generations net_down ex_page ex_runtime_doc)
    as (_ & _ & _ & _ & Hfallback).
  apply Hfallback; reflexivity.
Defined.


(** ** The offline fallback *)

(** C9, at a failing input: after a successful install on an empty
    store (and with every write settled), a navigation request that
    misses while the network is down gets [undefined] from [cacheFirst],
    not an offline document: "/offline.html" is not among
    [STATIC_ASSETS], so no generation holds it. *)
Theorem cacheFirst_offline_document_missing :
  (on_install net_ok ex_world).1 = Ok tt /\
  mode ex_page = "navigate" /\
  entry_of CACHE_NAME (identity ex_page) ex_installed = None /\
  net_down ex_page = Rejected /\
  ("/offline.html" ∉ STATIC_ASSETS) /\
  (cacheFirst net_down ex_page (settle ex_installed)).1 = Ok None.
Proof.
  split; [by vm_compute|]. split; [done|]. split; [by vm_compute|].
  split; [done|]. split; [|by vm_compute].
  unfold STATIC_ASSETS. rewrite !not_elem_of_cons. 
  repeat split; try discriminate. apply not_elem_of_nil.
Qed.

(** For the other kinds of request the failure is thrown: a request
    that is not a navigation, misses and whose fetch fails at transport
    level gets the transport failure. *)
Lemma cacheFirst_failure_propagates (net : Network) (request : Request)
    (w : World) :
  mode request ≠ "navigate" ->
  matched CACHE_NAME request w = None ->
  net request = Rejected ->
  (cacheFirst net request w).1 = Throw (TransportFailure request).
Proof.
  intros Hmode Hmiss Hnet.
  rewrite (cacheFirst_miss_eq net request w Hmiss), Hnet.
  apply String.eqb_neq in Hmode. by rewrite Hmode.
Qed.

(** ** Installation *)

Lemma append_inj_r (s a b : string) : s +:+ a = s +:+ b -> a = b.
Proof.
  induction s as [|c s IH]; [done|].
  rewrite !append_cons. intros [= H]. by apply IH.
Qed.

Lemma request_of_identity_inj (w : World) (p1 p2 : string) :
  identity (request_of w p1) = identity (request_of w p2) -> p1 = p2.
Proof. unfold identity; simpl. intros [= H]. by apply append_inj_r in H. Qed.

Lemma STATIC_ASSETS_NoDup : NoDup STATIC_ASSETS.
Proof. apply (bool_decide_unpack _). by vm_compute. Qed.

Section Batch.

Variable net : Network.

Lemma fetch_batch_None (qs : list Request) :
  fetch_batch net qs = None <-> exists q, q ∈ qs /\ ~ accepted (net q).
Proof.
  unfold accepted. induction qs as [|q qs IH]; simpl.
  - split; [done|]. intros [q [Hq _]]. by apply elem_of_nil in Hq.
  - destruct (net q) as [r|] eqn:Hnet.
    + destruct (addable r) eqn:Hadd.
      * destruct (fetch_batch net qs) as [l|].
        -- split; [done|]. intros [q' [Hq' Hno]].
           apply elem_of_cons in Hq' as [-> | Hq'].
           ++ destruct Hno. exists r. by rewrite Hnet.
           ++ destruct IH as [_ IH]. discriminate IH. by exists q'.
        -- split; [|done]. intros _.
           destruct IH as [IH _]. destruct (IH eq_refl) as [q' [Hq' Hno]].
           exists q'. split; [by right|done].
      * split; [|done]. intros _. exists q. split; [by left|].
        rewrite Hnet. intros [r' [[= <-] Hr']]. congruence.
    + split; [|done]. intros _. exists q. split; [by left|].
      rewrite Hnet. by intros [r' [? _]].
Qed.

Lemma fetch_batch_Some (qs : list Request) (l : list (Request * Response)) :
  fetch_batch net qs = Some l ->
  l.*1 = qs /\ Forall (fun qr => net qr.1 = Fulfilled qr.2) l.
Proof.
  revert l. induction qs as [|q qs IH]; intros l; simpl.
  - by intros [= <-].
  - destruct (net q) as [r|] eqn:Hnet; [|done].
    destruct (addable r); [|done].
    destruct (fetch_batch net qs) as [l'|]; [|done].
    intros [= <-]. destruct (IH l' eq_refl) as [Hfst Hall].
    split; [by rewrite fmap_cons, Hfst|]. by constructor.
Qed.

End Batch.

Lemma storage_lookup_write_batch cache l cs n :
  storage_lookup n (write_batch cache l cs) =
  if decide (n = cache) then (insert_all l) <$> storage_lookup n cs
  else storage_lookup n cs.
Proof.
  unfold write_batch, insert_all.
  revert cs. induction l as [|qr l IH]; intros cs; cbn [foldl].
  - destruct (decide (n = cache)); [|done].
    by destruct (storage_lookup n cs).
  - rewrite IH, storage_lookup_update.
    destruct (decide (n = cache)); [|done].
    by destruct (storage_lookup n cs).
Qed.

Lemma insert_all_snoc l qr c :
  insert_all (l ++ [qr]) c = <[identity qr.1 := qr.2]> (insert_all l c).
Proof. unfold insert_all. by rewrite foldl_app. Qed.

Lemma lookup_insert_all_other l c id :
  (forall qr, qr ∈ l -> identity qr.1 ≠ id) ->
  insert_all l c !! id = c !! id.
Proof.
  induction l as [|qr l IH] using rev_ind; intros Hother; [done|].
  rewrite insert_all_snoc, lookup_insert_ne.
  - apply IH. intros qr' Hin. apply Hother, elem_of_app. by left.
  - apply Hother, elem_of_app. right. by left.
Qed.

Lemma lookup_insert_all_elem l c q r :
  (q, r) ∈ l ->
  (forall q' r', (q', r') ∈ l -> identity q' = identity q -> r' = r) ->
  insert_all l c !! identity q = Some r.
Proof.
  induction l as [|[q' r'] l IH] using rev_ind; intros Hin Huniq.
  - by apply elem_of_nil in Hin.
  - rewrite insert_all_snoc. cbn [fst snd].
    destruct (decide (identity q' = identity q)) as [Heq|Hne].
    + rewrite Heq, lookup_insert_eq. f_equal.
      apply (Huniq q' r'); [|done]. apply elem_of_app. right. by left.
    + rewrite lookup_insert_ne by done.
      apply IH.
      * apply elem_of_app in Hin as [Hin|Hin]; [done|].
        apply list_elem_of_singleton in Hin. congruence.
      * intros q0 r0 Hin0. apply Huniq, elem_of_app. by left.
Qed.

Lemma size_insert_all l c :
  NoDup ((fun qr : Request * Response => identity qr.1) <$> l) ->
  (forall qr, qr ∈ l -> c !! identity qr.1 = None) ->
  size (insert_all l c) = (size c + length l)%nat.
Proof.
  unfold insert_all.
  revert c. induction l as [|qr l IH]; intros c Hnodup Hfresh; cbn [foldl].
  - simpl. lia.
  - rewrite fmap_cons in Hnodup. apply NoDup_cons in Hnodup as [Hnotin Hnodup].
    rewrite IH.
    + rewrite map_size_insert_None; [simpl; lia|]. apply Hfresh. by left.
    + done.
    + intros qr' Hin. rewrite lookup_insert_ne; [apply Hfresh; by right|].
      intros Heq. apply Hnotin. rewrite Heq.
      by apply (list_elem_of_fmap_2 (fun qr : Request * Response => identity qr.1)).
Qed.

Lemma on_install_eq (net : Network) (w : World) :
  on_install net w =
  let w0 := log_fetches (request_of w <$> STATIC_ASSETS)
              (set_caches (storage_open CACHE_NAME (caches w)) w) in
  match fetch_batch net (request_of w <$> STATIC_ASSETS) with
  | Some l =>
      (Ok tt,
       set_skipWaiting (set_caches (write_batch CACHE_NAME l (caches w0)) w0))
  | None => (Throw AddAllRejected, w0)
  end.
Proof.
  unfold on_install, bind, caches_open, cache_addAll.
  change (request_of (set_caches ?cs w)) with (request_of w).
  by destruct (fetch_batch net (request_of w <$> STATIC_ASSETS)).
Qed.

(** A failed install: the promise rejects, no asset is written, nothing
    is left to be written, and [skipWaiting] is not called. *)
Lemma on_install_failure (net : Network) (w : World) :
  (exists path, path ∈ STATIC_ASSETS /\ ~ accepted (net (request_of w path))) ->
  (on_install net w).1 = Throw AddAllRejected /\
  location (on_install net w).2 = location w /\
  (forall name id, entry_of name id (on_install net w).2 = entry_of name id w) /\
  pending (on_install net w).2 = pending w /\
  skipWaitingFlag (on_install net w).2 = skipWaitingFlag w.
Proof.
  intros [path [Hin Hfail]].
  assert (Hnone : fetch_batch net (request_of w <$> STATIC_ASSETS) = None).
  { apply fetch_batch_None. exists (request_of w path).
    split; [by apply list_elem_of_fmap_2|done]. }
  rewrite on_install_eq, Hnone. cbn [fst snd].
  repeat split. intros name id. apply (entry_of_open CACHE_NAME name id w).
Qed.

(** A successful install: the promise resolves, [skipWaiting] is called,
    every asset of the manifest has the response fetched for it as its
    entry in the static generation, and no other entry has changed. *)
Lemma on_install_success (net : Network) (w : World) :
  (forall path, path ∈ STATIC_ASSETS -> accepted (net (request_of w path))) ->
  (on_install net w).1 = Ok tt /\
  skipWaitingFlag (on_install net w).2 = true /\
  (forall path, path ∈ STATIC_ASSETS ->
     exists r, net (request_of w path) = Fulfilled r /\
       entry_of CACHE_NAME (identity (request_of w path))
                (on_install net w).2 = Some r) /\
  (forall name id,
     name ≠ CACHE_NAME \/
     (forall path, path ∈ STATIC_ASSETS -> id ≠ identity (request_of w path)) ->
     entry_of name id (on_install net w).2 = entry_of name id w) /\
  ((forall id, entry_of CACHE_NAME id w = None) ->
   exists c, storage_lookup CACHE_NAME (caches (on_install net w).2) = Some c /\
             size c = length STATIC_ASSETS).
Proof.
  intros Hall.
  destruct (fetch_batch net (request_of w <$> STATIC_ASSETS)) as [l|] eqn:Hl.
  2:{ apply fetch_batch_None in Hl as [q [Hq Hno]].
      apply list_elem_of_fmap in Hq as [path [-> Hpath]].
      destruct Hno. by apply Hall. }
  destruct (fetch_batch_Some net _ _ Hl) as [Hfst Hnet].
  rewrite Forall_forall in Hnet.
  rewrite on_install_eq, Hl.
  cbn [fst snd skipWaitingFlag set_skipWaiting].
  split; [done|]. split; [done|].
  unfold entry_of, stored.
  cbn [caches set_skipWaiting set_caches log_fetches].
  assert (Hkeys : forall qr, qr ∈ l ->
            exists path, path ∈ STATIC_ASSETS /\ qr.1 = request_of w path).
  { intros qr Hqr.
    assert (Hq : qr.1 ∈ request_of w <$> STATIC_ASSETS).
    { rewrite <- Hfst. by apply list_elem_of_fmap_2. }
    apply list_elem_of_fmap in Hq as [path [-> Hpath]]. by exists path. }
  split; [|split].
  - intros path Hpath.
    destruct (Hall path Hpath) as [r [Hr _]]. exists r. split; [done|].
    rewrite storage_lookup_write_batch, decide_True, storage_lookup_open by done.
    simpl. apply lookup_insert_all_elem.
    + assert (Hq : request_of w path ∈ l.*1).
      { rewrite Hfst. by apply list_elem_of_fmap_2. }
      apply list_elem_of_fmap in Hq as [[q' r'] [Heq Hin]].
      simpl in Heq. subst q'.
      apply Hnet in Hin as Hn. simpl in Hn. congruence.
    + intros q' r' Hin Hid.
      destruct (Hkeys _ Hin) as [path' [_ Hq']]. simpl in Hq'. subst q'.
      apply request_of_identity_inj in Hid as ->.
      apply Hnet in Hin. simpl in Hin. congruence.
  - intros name id Hother.
    rewrite storage_lookup_write_batch.
    destruct (decide (name = CACHE_NAME)) as [->|Hne].
    + destruct Hother as [?|Hid]; [done|].
      rewrite storage_lookup_open. simpl.
      rewrite lookup_insert_all_other.
      * by destruct (storage_lookup CACHE_NAME (caches w)).
      * intros qr Hqr. destruct (Hkeys _ Hqr) as [path [Hpath ->]].
        intros Heq. by apply (Hid path Hpath).
    + by rewrite storage_lookup_open_ne.
  - intros Hempty. unfold entry_of, stored in Hempty.
    rewrite storage_lookup_write_batch, decide_True, storage_lookup_open by done.
    simpl. eexists. split; [done|].
    assert (Hids : (fun qr : Request * Response => identity qr.1) <$> l =
                   (fun path => identity (request_of w path)) <$> STATIC_ASSETS).
    { transitivity (identity <$> l.*1).
      - by rewrite <- list_fmap_compose.
      - by rewrite Hfst, <- list_fmap_compose. }
    rewrite size_insert_all.
    + destruct (storage_lookup CACHE_NAME (caches w)) as [c|] eqn:Hc; simpl.
      * assert (c = ∅) as -> by (apply map_empty; intros id; apply Hempty).
        rewrite map_size_empty.
        by rewrite <- (length_fmap fst l), Hfst, length_fmap.
      * rewrite map_size_empty.
        by rewrite <- (length_fmap fst l), Hfst, length_fmap.
    + rewrite Hids. apply NoDup_fmap_2; [|apply STATIC_ASSETS_NoDup].
      intros p1 p2. apply request_of_identity_inj.
    + intros qr Hqr.
      destruct (storage_lookup CACHE_NAME (caches w)) as [c|]; simpl; [|done].
      apply Hempty.
Qed.

(** C4.  When the fetch of some asset of the manifest fails (or its
    response is not accepted), the install promise rejects, no asset is
    written to any generation, none is left to be written, and
    [skipWaiting] is not called.  Run again from the state so reached,
    with a network that serves every asset, install resolves, calls
    [skipWaiting], and the static generation holds for each asset of the
    manifest the response fetched for it, every other entry being as
    before; if it held nothing before, it holds exactly as many entries
    as the manifest has assets. *)
Theorem on_install_all_or_nothing (net net2 : Network) (w : World) :
  (exists path, path ∈ STATIC_ASSETS /\ ~ accepted (net (request_of w path))) ->
  (forall path, path ∈ STATIC_ASSETS -> accepted (net2 (request_of w path))) ->
  (on_install net w).1 = Throw AddAllRejected /\
  (forall name id, entry_of name id (on_install net w).2 = entry_of name id w) /\
  pending (on_install net w).2 = pending w /\
  skipWaitingFlag (on_install net w).2 = skipWaitingFlag w /\
  (on_install net2 (on_install net w).2).1 = Ok tt /\
  skipWaitingFlag (on_install net2 (on_install net w).2).2 = true /\
  (forall path, path ∈ STATIC_ASSETS ->
     exists r, net2 (request_of w path) = Fulfilled r /\
       entry_of CACHE_NAME (identity (request_of w path))
                (on_install net2 (on_install net w).2).2 = Some r) /\
  (forall name id,
     name ≠ CACHE_NAME \/
     (forall path, path ∈ STATIC_ASSETS -> id ≠ identity (request_of w path)) ->
     entry_of name id (on_install net2 (on_install net w).2).2 =
     entry_of name id w) /\
  ((forall id, entry_of CACHE_NAME id w = None) ->
   exists c,
     storage_lookup CACHE_NAME
       (caches (on_install net2 (on_install net w).2).2) = Some c /\
     size c = length STATIC_ASSETS).
Proof.
  intros Hfail Hok.
  destruct (on_install_failure net w Hfail)
    as [Hres [Hloc [Hentries [Hpending Hskip]]]].
  set (w1 := (on_install net w).2) in *.
  assert (Hreq : request_of w1 = request_of w).
  { unfold request_of, resolve. by rewrite Hloc. }
  assert (Hok1 : forall path, path ∈ STATIC_ASSETS ->
                   accepted (net2 (request_of w1 path))).
  { intros path Hpath. rewrite Hreq. by apply Hok. }
  destruct (on_install_success net2 w1 Hok1)
    as [Hres2 [Hskip2 [Hassets [Hothers Hsize]]]].
  rewrite Hreq in Hassets, Hothers.
  repeat split; try done.
  - intros name id Hother. rewrite Hothers by done. apply Hentries.
  - intros Hempty. apply Hsize. intros id. by rewrite Hentries.
Qed.

Lemma on_install_all_or_nothing_witness :
  (exists path, path ∈ STATIC_ASSETS /\
     ~ accepted (net_styles_down (request_of ex_world path))) /\
  (forall path, path ∈ STATIC_ASSETS ->
     accepted (net_ok (request_of ex_world path))) /\
  (on_install net_styles_down ex_world).1 = Throw AddAllRejected /\
  skipWaitingFlag (on_install net_styles_down ex_world).2 = false /\
  (on_install net_ok (on_install net_styles_down ex_world).2).1 = Ok tt /\
  exists c,
    storage_lookup CACHE_NAME
      (caches (on_install net_ok (on_install net_styles_down ex_world).2).2)
      = Some c /\
    size c = length STATIC_ASSETS.
Proof.
  assert (Hfail : exists path, path ∈ STATIC_ASSETS /\
            ~ accepted (net_styles_down (request_of ex_world path))).
  { exists "/styles.css". split; [right; right; left|].
    intros [r [Hr _]]. discriminate Hr. }
  assert (Hok : forall path, path ∈ STATIC_ASSETS ->
            accepted (net_ok (request_of ex_world path))).
  { intros path _. exists ex_ok. split; reflexivity. }
  split; [exact Hfail|]. split; [exact Hok|].
  destruct (on_install_all_or_nothing net_styles_down net_ok ex_world Hfail Hok)
    as (Hres & _ & _ & Hskip & Hres2 & _ & _ & _ & Hsize).
  split; [exact Hres|]. split; [exact Hskip|]. split; [exact Hres2|].
  apply Hsize. intros id. reflexivity.
Defined.


(** ** Requests with another method than GET *)

Lemma get_only_open name cs : get_only cs -> get_only (storage_open name cs).
Proof.
  intros Hcs. unfold storage_open.
  destruct (storage_lookup name cs); [done|].
  intros n c id r Hin Hid. apply elem_of_app in Hin as [Hin|Hin].
  - by apply (Hcs n c id r).
  - apply list_elem_of_singleton in Hin as [= -> ->].
    by rewrite lookup_empty in Hid.
Qed.

Lemma get_only_filter (P : string * gmap (string * string) Response -> Prop)
    `{!forall nc, Decision (P nc)} cs :
  get_only cs -> get_only (filter P cs).
Proof.
  intros Hcs n c id r Hin Hid. apply list_elem_of_filter in Hin as [_ Hin].
  by apply (Hcs n c id r).
Qed.

Lemma get_only_insert name key response cs :
  key.1 = "GET" ->
  get_only cs -> get_only (storage_update name (insert key response) cs).
Proof.
  intros Hkey Hcs n c id r Hin Hid. unfold storage_update in Hin.
  apply list_elem_of_fmap in Hin as [[n' c'] [Heq Hin]]. simpl in Heq.
  destruct (decide (n' = name)) as [->|Hne].
  - injection Heq as -> ->.
    destruct (decide (key = id)) as [<-|Hk]; [done|].
    rewrite lookup_insert_ne in Hid by done. by apply (Hcs name c' id r).
  - injection Heq as -> ->. by apply (Hcs n' c' id r).
Qed.

Lemma get_only_commit_put cs p : get_only cs -> get_only (commit_put cs p).
Proof.
  intros Hcs. unfold commit_put.
  destruct (decide (method (put_request p) = "GET")) as [Hget|]; [|done].
  destruct (status (put_response p) =? 206); [done|].
  by apply get_only_insert.
Qed.

Lemma get_only_commit_all ps cs :
  get_only cs -> get_only (foldl commit_put cs ps).
Proof.
  revert cs. induction ps as [|p ps IH]; intros cs Hcs; [done|].
  cbn [foldl]. by apply IH, get_only_commit_put.
Qed.

Lemma get_only_write_batch w paths l cs :
  l.*1 = request_of w <$> paths ->
  get_only cs -> get_only (write_batch CACHE_NAME l cs).
Proof.
  unfold write_batch.
  revert paths cs. induction l as [|[q r] l IH]; intros paths cs Hl Hcs; [done|].
  destruct paths as [|path paths]; [done|].
  rewrite !fmap_cons in Hl. injection Hl as Hq Hl. simpl in Hq. subst q.
  cbn [foldl]. apply (IH paths); [done|]. by apply get_only_insert.
Qed.

(** Every step keeps the store keyed by GET identities. *)
Lemma step_get_only w w' :
  step w w' -> get_only (caches w) -> get_only (caches w').
Proof.
  intros Hstep Hw. destruct Hstep as
    [net request w|net request w|net request w|w|net w|w|action w].
  - unfold on_fetch.
    destruct (negb (String.eqb (method request) "GET")); [done|].
    destruct (negb _ && negb _); [done|].
    destruct (isAPIRequest (url request)); unfold respondWith; cbn [snd].
    + destruct (networkFirst_pending net request w) as [-> _].
      by apply get_only_open.
    + destruct (cacheFirst_pending net request w) as [-> _].
      by apply get_only_open.
  - destruct (cacheFirst_pending net request w) as [-> _].
    by apply get_only_open.
  - destruct (networkFirst_pending net request w) as [-> _].
    by apply get_only_open.
  - unfold settle. cbn [caches clear_pending set_caches].
    by apply get_only_commit_all.
  - rewrite on_install_eq.
    destruct (fetch_batch net (request_of w <$> STATIC_ASSETS)) as [l|] eqn:Hl;
      cbn [snd caches set_skipWaiting set_caches log_fetches].
    + destruct (fetch_batch_Some net _ _ Hl) as [Hfst _].
      apply (get_only_write_batch w STATIC_ASSETS); [done|].
      by apply get_only_open.
    + by apply get_only_open.
  - rewrite on_activate_eq. cbn [snd caches set_claimed set_caches].
    by apply get_only_filter.
  - unfold on_message, bind.
    destruct (String.eqb action "skipWaiting");
      destruct (String.eqb action "clearCache");
      unfold skipWaiting, ret, caches_keys; try done;
      rewrite mapM_delete_eq; cbn [snd caches set_caches set_skipWaiting];
      rewrite foldl_delete_filter; by apply get_only_filter.
Qed.

Lemma rtc_step_get_only w w' :
  rtc step w w' -> get_only (caches w) -> get_only (caches w').
Proof.
  induction 1 as [|w w1 w' Hstep _ IH]; [done|].
  intros Hw. by apply IH, (step_get_only w).
Qed.

(** C8.  For every request whose method is not GET: the fetch listener
    returns without answering and leaves the state, store included,
    untouched; and from any state whose entries are keyed by GET
    identities (the empty store is one), whatever listeners and
    strategies run on whatever requests and whenever the dispatched
    writes settle, no generation ever has an entry under the identity
    of the request. *)
Theorem non_GET_never_cached (net : Network) (request : Request) (w : World) :
  method request ≠ "GET" ->
  on_fetch net request w = (NotIntercepted, w) /\
  (forall w', get_only (caches w) -> rtc step w w' ->
     forall name, entry_of name (identity request) w' = None).
Proof.
  intros Hmethod. split.
  - unfold on_fetch. apply String.eqb_neq in Hmethod. by rewrite Hmethod.
  - intros w' Hw Hreach name.
    apply entry_of_non_GET; [|done].
    by apply (rtc_step_get_only w w').
Qed.

Lemma non_GET_never_cached_witness :
  method ex_post ≠ "GET" /\
  get_only (caches ex_world) /\
  rtc step ex_world (settle (cacheFirst net_ok ex_post ex_world).2) /\
  on_fetch net_ok ex_post ex_world = (NotIntercepted, ex_world) /\
  forall name,
    entry_of name (identity ex_post)
             (settle (cacheFirst net_ok ex_post ex_world).2) = None.
Proof.
  assert (Hmethod : method ex_post ≠ "GET") by discriminate.
  assert (Hempty : get_only (caches ex_world)).
  { intros name c id r Hin. inversion Hin. }
  assert (Hreach : rtc step ex_world
                     (settle (cacheFirst net_ok ex_post ex_world).2)).
  { eapply rtc_l; [apply (step_cacheFirst net_ok ex_post)|].
    eapply rtc_l; [apply step_settle|]. apply rtc_refl. }
  split; [exact Hmethod|]. split; [exact Hempty|]. split; [exact Hreach|].
  destruct (non_GET_never_cached net_ok ex_post ex_world Hmethod)
    as [Hfetch Hnever].
  split; [exact Hfetch|]. exact (Hnever _ Hempty Hreach).
Defined.


(** ** Which requests the fetch listener answers *)

(** X1.  The fetch listener leaves a request alone exactly when its method
    is not GET, or its origin is foreign and no allowed domain occurs in
    its hostname; it then changes nothing and fetches nothing. *)
Theorem on_fetch_not_intercepted_iff (net : Network) (request : Request)
    (w : World) :
  ((on_fetch net request w).1 = NotIntercepted <->
   method request ≠ "GET" \/
   (origin (url request) ≠ origin (location w) /\
    ~ exists d, d ∈ allowedDomains /\ occurs_in d (hostname (url request)))) /\
  ((on_fetch net request w).1 = NotIntercepted ->
   (on_fetch net request w).2 = w).
Proof.
  unfold on_fetch.
  destruct (String.eqb (method request) "GET") eqn:Hm; cbn [negb].
  - apply String.eqb_eq in Hm.
    destruct (String.eqb (origin (url request)) (origin (location w)))
      eqn:Ho; cbn [negb andb].
    + apply String.eqb_eq in Ho.
      destruct (isAPIRequest (url request)); unfold respondWith; cbn [fst];
        (split; [split; [done|tauto]|done]).
    + apply String.eqb_neq in Ho.
      destruct (isAllowedAPI (url request)) eqn:Ha; cbn [negb].
      * apply isAllowedAPI_spec in Ha.
        destruct (isAPIRequest (url request)); unfold respondWith; cbn [fst];
          (split; [split; [done|tauto]|done]).
      * split; [|done]. split; [|done]. intros _. right. split; [done|].
        rewrite <- isAllowedAPI_spec. by rewrite Ha.
  - apply String.eqb_neq in Hm. split; [|done]. split; [|done].
    intros _. by left.
Qed.

Lemma apiDomains_allowed (d : string) : d ∈ apiDomains -> d ∈ allowedDomains.
Proof.
  unfold apiDomains, allowedDomains. rewrite !elem_of_cons.
  intros [->|[->|[->|[->|H]]]]; [tauto..|by apply elem_of_nil in H].
Qed.

(** X2.  Every URL [isAPIRequest] accepts, [isAllowedAPI] accepts too: a GET
    request whose hostname contains an API domain is answered with
    [networkFirst] whatever its origin. *)
Theorem api_request_always_network_first (net : Network) (request : Request)
    (w : World) :
  method request = "GET" ->
  isAPIRequest (url request) = true ->
  isAllowedAPI (url request) = true /\
  on_fetch net request w = respondWith (networkFirst net request) w.
Proof.
  intros Hget Hapi.
  assert (Hallowed : isAllowedAPI (url request) = true).
  { apply isAllowedAPI_spec. apply isAPIRequest_spec in Hapi as [d [Hd Hocc]].
    exists d. split; [by apply apiDomains_allowed|done]. }
  split; [done|].
  unfold on_fetch. rewrite Hget, Hallowed, Hapi.
  cbn [String.eqb Ascii.eqb Bool.eqb negb]. by rewrite andb_false_r.
Qed.

Lemma api_request_always_network_first_witness :
  method ex_api = "GET" /\
  isAPIRequest (url ex_api) = true /\
  isAllowedAPI (url ex_api) = true /\
  on_fetch net_down ex_api ex_world =
    respondWith (networkFirst net_down ex_api) ex_world.
Proof.
  split; [reflexivity|]. split; [reflexivity|].
  apply (api_request_always_network_first net_down ex_api ex_world);
    reflexivity.
Defined.

(** ** More on the strategies *)

(** X3.  Network-first refreshes its entry: for a GET request answered 200,
    whatever the runtime generation held, the entry of the request is
    the fetched response once the write has settled, and a later call
    during a transport failure returns it. *)
Theorem networkFirst_refresh_then_fallback (net : Network)
    (request : Request) (w : World) (r : Response) :
  method request = "GET" ->
  net request = Fulfilled r ->
  status r = 200 ->
  (networkFirst net request w).1 = Ok (Some r) /\
  entry_of RUNTIME_CACHE (identity request)
           (settle (networkFirst net request w).2) = Some r /\
  forall net' : Network,
    net' request = Rejected ->
    (networkFirst net' request (settle (networkFirst net request w).2)).1 =
    Ok (Some r).
Proof.
  intros Hget Hnet Hstatus.
  assert (Hentry : entry_of RUNTIME_CACHE (identity request)
                     (settle (networkFirst net request w).2) = Some r).
  { rewrite networkFirst_eq, Hnet, Hstatus. cbn [Z.eqb Pos.eqb snd].
    unfold entry_of, settle.
    cbn [caches pending set_caches clear_pending add_pending log_fetch].
    rewrite foldl_app. cbn [foldl].
    set (p := mkPendingPut RUNTIME_CACHE request (clone r)).
    change RUNTIME_CACHE with (put_cache p) at 1.
    change request with (put_request p) at 1.
    rewrite stored_commit_put_same.
    - cbn [p put_response]. by rewrite clone_same.
    - done.
    - cbn [p put_response clone status]. lia.
    - apply storage_lookup_commit_all_is_Some. cbn [p put_cache].
      by rewrite storage_lookup_open. }
  split; [by rewrite networkFirst_eq, Hnet|]. split; [done|].
  intros net' Hdown.
  rewrite networkFirst_eq, Hdown, (matched_GET _ _ _ Hget), Hentry. done.
Qed.

Lemma networkFirst_refresh_then_fallback_witness :
  method ex_api = "GET" /\
  net_ok ex_api = Fulfilled ex_ok /\
  status ex_ok = 200 /\
  (networkFirst net_ok ex_api ex_world).1 = Ok (Some ex_ok) /\
  entry_of RUNTIME_CACHE (identity ex_api)
           (settle (networkFirst net_ok ex_api ex_world).2) = Some ex_ok /\
  forall net' : Network,
    net' ex_api = Rejected ->
    (networkFirst net' ex_api
       (settle (networkFirst net_ok ex_api ex_world).2)).1 = Ok (Some ex_ok).
Proof.
  split; [reflexivity|]. split; [reflexivity|]. split; [reflexivity|].
  apply (networkFirst_refresh_then_fallback net_ok ex_api ex_world ex_ok);
    reflexivity.
Defined.

(** X4.  Cache-first goes to the network exactly when [cache.match] misses,
    and then once: the requests handed to the network grow by the
    request itself on a miss and not at all on a hit. *)
Theorem cacheFirst_fetches_iff_miss (net : Network) (request : Request)
    (w : World) :
  fetched (cacheFirst net request w).2 =
  fetched w ++ match matched CACHE_NAME request w with
               | Some _ => []
               | None => [request]
               end.
Proof.
  destruct (matched CACHE_NAME request w) as [r|] eqn:Hm.
  - rewrite (cacheFirst_matched_eq net request w r Hm). cbn [snd].
    by rewrite app_nil_r.
  - rewrite (cacheFirst_miss_eq net request w Hm).
    destruct (net request) as [r|].
    + by destruct (status r =? 200).
    + by destruct (String.eqb (mode request) "navigate").
Qed.

Lemma storage_match_None (q : Request)
    (cs : list (string * gmap (string * string) Response)) :
  method q = "GET" ->
  storage_match q cs = None <->
  forall name c, (name, c) ∈ cs -> c !! identity q = None.
Proof.
  intros Hget. induction cs as [|[n c] cs IH]; cbn [storage_match].
  - split; [|done]. intros _ name c' Hin. by apply elem_of_nil in Hin.
  - unfold entry_match at 1. rewrite decide_True by done.
    destruct (c !! identity q) as [r|] eqn:Hc.
    + split; [done|]. intros Hall.
      rewrite (Hall n c) in Hc; [done|by left].
    + rewrite IH. split.
      * intros Hall name c' Hin.
        apply elem_of_cons in Hin as [[= -> ->]|Hin]; [done|].
        by apply (Hall name).
      * intros Hall name c' Hin. apply (Hall name). by right.
Qed.

Lemma elem_of_storage_open name cs n c :
  (n, c) ∈ storage_open name cs -> (n, c) ∈ cs \/ c = ∅.
Proof.
  unfold storage_open. destruct (storage_lookup name cs); [by left|].
  rewrite elem_of_app, list_elem_of_singleton. intros [Hin|[= _ ->]];
    [by left|by right].
Qed.

Lemma elem_of_storage_open_2 name cs n c :
  (n, c) ∈ cs -> (n, c) ∈ storage_open name cs.
Proof.
  unfold storage_open. destruct (storage_lookup name cs); [done|].
  rewrite elem_of_app. by left.
Qed.

(** X5.  Cache-first resolves with [undefined] in exactly one situation: a
    navigation request misses, its fetch fails at transport level, and
    no generation of the store holds an entry for "/offline.html". *)
Theorem cacheFirst_undefined_iff (net : Network) (request : Request)
    (w : World) :
  (cacheFirst net request w).1 = Ok None <->
  mode request = "navigate" /\
  matched CACHE_NAME request w = None /\
  net request = Rejected /\
  forall name c, (name, c) ∈ caches w ->
    c !! identity (request_of w "/offline.html") = None.
Proof.
  destruct (matched CACHE_NAME request w) as [r|] eqn:Hm.
  { rewrite (cacheFirst_matched_eq net request w r Hm). cbn [fst].
    split; [done|]. by intros (_ & ? & _). }
  rewrite (cacheFirst_miss_eq net request w Hm).
  destruct (net request) as [r|].
  { cbn [fst]. split; [done|]. by intros (_ & _ & ? & _). }
  destruct (String.eqb (mode request) "navigate") eqn:Hmode; cbn [fst].
  - apply String.eqb_eq in Hmode.
    cbn [caches log_fetch set_caches]. split.
    + intros [= Hnone]. repeat split; try done.
      intros name c Hin.
      apply (storage_match_None (request_of w "/offline.html")) with
        (name := name) (c := c) in Hnone; [done|done|].
      by apply elem_of_storage_open_2.
    + intros (_ & _ & _ & Hall). f_equal.
      apply storage_match_None; [done|]. intros name c Hin.
      apply elem_of_storage_open in Hin as [Hin| ->];
        [by apply (Hall name)|apply lookup_empty].
  - apply String.eqb_neq in Hmode. split; [done|]. by intros (? & _).
Qed.

(** X6.  Network-first never resolves with [undefined], and it throws in
    exactly one situation: the fetch fails at transport level and
    [cache.match] finds nothing in the runtime generation; what it
    throws is then the transport failure of the request. *)
Theorem networkFirst_outcomes (net : Network) (request : Request)
    (w : World) :
  (networkFirst net request w).1 ≠ Ok None /\
  forall e,
    (networkFirst net request w).1 = Throw e <->
    net request = Rejected /\
    matched RUNTIME_CACHE request w = None /\
    e = TransportFailure request.
Proof.
  rewrite networkFirst_eq.
  destruct (net request) as [r|]; cbn [fst].
  - split; [done|]. intros e. split; [done|]. by intros (? & _).
  - destruct (matched RUNTIME_CACHE request w) as [r|]; cbn [fst].
    + split; [done|]. intros e. split; [done|]. by intros (_ & ? & _).
    + split; [done|]. intros e. split.
      * by intros [= <-].
      * by intros (_ & _ & ->).
Qed.

(** X7.  A response with a status other than 200 passes through cache-first
    as it is and is never remembered: nothing is dispatched, the request
    still misses afterwards, and a second call fetches it again. *)
Theorem cacheFirst_error_response_refetched (net : Network)
    (request : Request) (w : World) (r : Response) :
  matched CACHE_NAME request w = None ->
  net request = Fulfilled r ->
  status r ≠ 200 ->
  (cacheFirst net request w).1 = Ok (Some r) /\
  pending (cacheFirst net request w).2 = pending w /\
  matched CACHE_NAME request (cacheFirst net request w).2 = None /\
  (cacheFirst net request (cacheFirst net request w).2).1 = Ok (Some r) /\
  fetched (cacheFirst net request (cacheFirst net request w).2).2 =
    fetched w ++ [request; request].
Proof.
  intros Hmiss Hnet Hstatus.
  assert (Hmiss' : matched CACHE_NAME request (cacheFirst net request w).2
                   = None).
  { rewrite (cacheFirst_miss_eq net request w Hmiss), Hnet.
    apply Z.eqb_neq in Hstatus. rewrite Hstatus. cbn [snd].
    change (matched CACHE_NAME request (log_fetch request ?w'))
      with (matched CACHE_NAME request w').
    by rewrite matched_open. }
  split; [by rewrite (cacheFirst_miss_eq net request w Hmiss), Hnet|].
  split.
  { rewrite (cacheFirst_miss_eq net request w Hmiss), Hnet.
    apply Z.eqb_neq in Hstatus. by rewrite Hstatus. }
  split; [done|]. split.
  { by rewrite (cacheFirst_miss_eq net request _ Hmiss'), Hnet. }
  rewrite (cacheFirst_miss_eq net request _ Hmiss'), Hnet.
  apply Z.eqb_neq in Hstatus. rewrite Hstatus.
  cbn [snd fetched log_fetch set_caches].
  rewrite (cacheFirst_miss_eq net request w Hmiss), Hnet, Hstatus.
  cbn [snd fetched log_fetch set_caches]. by rewrite <- app_assoc.
Qed.

Lemma cacheFirst_error_response_refetched_witness :
  matched CACHE_NAME ex_page ex_world = None /\
  (fun _ => Fulfilled (mkResponse 404 "not found")) ex_page =
    Fulfilled (mkResponse 404 "not found") /\
  status (mkResponse 404 "not found") ≠ 200 /\
  fetched (cacheFirst (fun _ => Fulfilled (mkResponse 404 "not found")) ex_page
             (cacheFirst (fun _ => Fulfilled (mkResponse 404 "not found"))
                ex_page ex_world).2).2 =
    fetched ex_world ++ [ex_page; ex_page].
Proof.
  split; [reflexivity|]. split; [reflexivity|]. split; [discriminate|].
  apply (cacheFirst_error_response_refetched
           (fun _ => Fulfilled (mkResponse 404 "not found"))
           ex_page ex_world (mkResponse 404 "not found"));
    [reflexivity | reflexivity | discriminate].
Defined.

(** ** More on the lifecycle *)

Lemma storage_lookup_filter_name (P : string -> Prop)
    `{!forall n, Decision (P n)} (name : string)
    (cs : list (string * gmap (string * string) Response)) :
  storage_lookup name (filter (fun nc => P nc.1) cs) =
  if decide (P name) then storage_lookup name cs else None.
Proof.
  induction cs as [|[n c] cs IH]; [by destruct (decide (P name))|].
  rewrite filter_cons. cbn [fst storage_lookup].
  destruct (decide (P n)) as [Hn|Hn]; cbn [storage_lookup].
  - destruct (decide (n = name)) as [->|Hne]; [by rewrite decide_True|].
    by rewrite IH.
  - rewrite IH. destruct (decide (n = name)) as [->|Hne]; [|done].
    by destruct (decide (P name)).
Qed.

Lemma on_activate_entry (w : World) (name : string) (id : string * string) :
  entry_of name id (on_activate w).2 =
  if decide (name = CACHE_NAME \/ name = RUNTIME_CACHE)
  then entry_of name id w else None.
Proof.
  rewrite on_activate_eq. cbn [snd].
  unfold entry_of, stored. cbn [caches set_claimed set_caches].
  pose proof (storage_lookup_filter_name current name (caches w)) as Hfilter.
  cbv beta in Hfilter. rewrite Hfilter. unfold current.
  by destruct (decide (name = CACHE_NAME \/ name = RUNTIME_CACHE)).
Qed.

Lemma on_activate_location (w : World) :
  location (on_activate w).2 = location w.
Proof. by rewrite on_activate_eq. Qed.

(** X8.  Activation loses no entry of the two current generations and leaves
    no entry under any other name; the writes still to settle and the
    script's location are untouched. *)
Theorem on_activate_entries (w : World) :
  (forall name id,
     entry_of name id (on_activate w).2 =
     if decide (name = CACHE_NAME \/ name = RUNTIME_CACHE)
     then entry_of name id w else None) /\
  pending (on_activate w).2 = pending w /\
  location (on_activate w).2 = location w.
Proof.
  split; [apply on_activate_entry|].
  split; [by rewrite on_activate_eq|apply on_activate_location].
Qed.

Lemma on_install_location (net : Network) (w : World) :
  location (on_install net w).2 = location w.
Proof.
  rewrite on_install_eq.
  by destruct (fetch_batch net (request_of w <$> STATIC_ASSETS)).
Qed.

Lemma offline_not_in_manifest (w : World) (path : string) :
  path ∈ STATIC_ASSETS ->
  identity (request_of w "/offline.html") ≠ identity (request_of w path).
Proof.
  intros Hpath Heq. apply request_of_identity_inj in Heq. subst path.
  revert Hpath. unfold STATIC_ASSETS. rewrite !elem_of_cons.
  intros [H|[H|[H|[H|[H|[H|[H|[H|H]]]]]]]]; try discriminate H.
  by apply elem_of_nil in H.
Qed.

Lemma on_install_other_entries (net : Network) (w : World) (name : string)
    (id : string * string) :
  name ≠ CACHE_NAME \/
  (forall path, path ∈ STATIC_ASSETS -> id ≠ identity (request_of w path)) ->
  entry_of name id (on_install net w).2 = entry_of name id w.
Proof.
  intros Hother. rewrite on_install_eq.
  destruct (fetch_batch net (request_of w <$> STATIC_ASSETS)) as [l|] eqn:Hl;
    cbn [snd]; [|apply (entry_of_open CACHE_NAME name id w)].
  destruct (fetch_batch_Some net _ _ Hl) as [Hfst _].
  unfold entry_of, stored.
  cbn [caches set_skipWaiting set_caches log_fetches].
  rewrite storage_lookup_write_batch.
  destruct (decide (name = CACHE_NAME)) as [->|Hne];
    [|by rewrite storage_lookup_open_ne].
  destruct Hother as [?|Hid]; [done|].
  rewrite storage_lookup_open. simpl.
  rewrite lookup_insert_all_other;
    [by destruct (storage_lookup CACHE_NAME (caches w))|].
  intros qr Hqr Heq.
  assert (Hq : qr.1 ∈ request_of w <$> STATIC_ASSETS).
  { rewrite <- Hfst. by apply list_elem_of_fmap_2. }
  apply list_elem_of_fmap in Hq as [path [Hq Hpath]].
  apply (Hid path Hpath). by rewrite <- Hq.
Qed.

(** X9.  Whether it succeeds or fails, install changes no entry other than
    those of the manifest's assets in the static generation, and
    dispatches nothing; in particular it never stores an entry for
    "/offline.html". *)
Theorem on_install_frame (net : Network) (w : World) :
  (forall name id,
     name ≠ CACHE_NAME \/
     (forall path, path ∈ STATIC_ASSETS -> id ≠ identity (request_of w path)) ->
     entry_of name id (on_install net w).2 = entry_of name id w) /\
  (forall name,
     entry_of name (identity (request_of w "/offline.html"))
              (on_install net w).2 =
     entry_of name (identity (request_of w "/offline.html")) w) /\
  pending (on_install net w).2 = pending w.
Proof.
  split; [apply on_install_other_entries|]. split.
  - intros name. apply on_install_other_entries. right. intros path.
    apply offline_not_in_manifest.
  - rewrite on_install_eq.
    by destruct (fetch_batch net (request_of w <$> STATIC_ASSETS)).
Qed.

(** X10.  Install is idempotent on the store: with a network that serves every
    asset, a second install right after the first leaves every entry of
    every generation as the first left it. *)
Theorem on_install_twice (net : Network) (w : World) :
  (forall path, path ∈ STATIC_ASSETS -> accepted (net (request_of w path))) ->
  (on_install net (on_install net w).2).1 = Ok tt /\
  forall name id,
    entry_of name id (on_install net (on_install net w).2).2 =
    entry_of name id (on_install net w).2.
Proof.
  intros Hok.
  set (w1 := (on_install net w).2).
  assert (Hreq : request_of w1 = request_of w).
  { unfold request_of, resolve, w1. by rewrite on_install_location. }
  assert (Hok1 : forall path, path ∈ STATIC_ASSETS ->
                   accepted (net (request_of w1 path))).
  { intros path Hpath. rewrite Hreq. by apply Hok. }
  destruct (on_install_success net w Hok) as (_ & _ & Hassets & _ & _).
  destruct (on_install_success net w1 Hok1)
    as (Hres1 & _ & Hassets1 & Hothers1 & _).
  split; [done|]. intros name id.
  destruct (decide (name = CACHE_NAME)) as [->|Hne];
    [|apply Hothers1; by left].
  destruct (decide (id ∈ (fun path => identity (request_of w path))
                        <$> STATIC_ASSETS)) as [Hin|Hnotin].
  - apply list_elem_of_fmap in Hin as [path [-> Hpath]].
    destruct (Hassets path Hpath) as [r [Hr Hentry]].
    destruct (Hassets1 path Hpath) as [r1 [Hr1 Hentry1]].
    rewrite Hreq in Hr1, Hentry1. fold w1 in Hentry.
    rewrite Hentry, Hentry1. congruence.
  - apply Hothers1. right. intros path Hpath Heq. apply Hnotin.
    rewrite Hreq in Heq. rewrite Heq.
    by apply (list_elem_of_fmap_2 (fun path => identity (request_of w path))).
Qed.

Lemma on_install_twice_witness :
  (forall path, path ∈ STATIC_ASSETS ->
     accepted (net_ok (request_of ex_world path))) /\
  (on_install net_ok (on_install net_ok ex_world).2).1 = Ok tt /\
  forall name id,
    entry_of name id (on_install net_ok (on_install net_ok ex_world).2).2 =
    entry_of name id (on_install net_ok ex_world).2.
Proof.
  assert (Hok : forall path, path ∈ STATIC_ASSETS ->
            accepted (net_ok (request_of ex_world path))).
  { intros path _. exists ex_ok. split; reflexivity. }
  split; [exact Hok|]. exact (on_install_twice net_ok ex_world Hok).
Defined.

(** X11.  Offline after install and activate: when install succeeded and
    activation has run, the fetch listener answers a GET request for any
    asset of the manifest, of whatever mode, with the response install
    fetched for it, without going to the network and without changing
    the state; this on a site whose hostname contains no API domain. *)
Theorem precached_assets_served_offline (net net' : Network) (w : World)
    (path mode : string) :
  (forall p, p ∈ STATIC_ASSETS -> accepted (net (request_of w p))) ->
  path ∈ STATIC_ASSETS ->
  isAPIRequest (location w) = false ->
  exists r,
    net (request_of w path) = Fulfilled r /\
    on_fetch net' (mkRequest (resolve w path) "GET" mode)
             (on_activate (on_install net w).2).2 =
    (RespondWith (Ok (Some r)), (on_activate (on_install net w).2).2).
Proof.
  intros Hok Hpath Hhost.
  destruct (on_install_success net w Hok) as (_ & _ & Hassets & _ & _).
  destruct (Hassets path Hpath) as [r [Hr Hentry]].
  exists r. split; [done|].
  set (w2 := (on_activate (on_install net w).2).2).
  set (request := mkRequest (resolve w path) "GET" mode).
  assert (Hloc : location w2 = location w).
  { unfold w2. rewrite on_activate_location. apply on_install_location. }
  assert (Hentry2 : entry_of CACHE_NAME (identity request) w2 = Some r).
  { unfold w2. rewrite on_activate_entry, decide_True by (by left).
    exact Hentry. }
  unfold on_fetch. cbn [url method request]. rewrite Hloc.
  cbn [String.eqb Ascii.eqb Bool.eqb negb origin resolve].
  rewrite String.eqb_refl. cbn [negb andb].
  assert (Hapi : isAPIRequest (resolve w path) = false) by exact Hhost.
  rewrite Hapi. unfold respondWith.
  by rewrite (cacheFirst_hit_eq net' request w2 r eq_refl Hentry2).
Qed.

Lemma precached_assets_served_offline_witness :
  (forall p, p ∈ STATIC_ASSETS -> accepted (net_ok (request_of ex_world p))) /\
  ("/styles.css" ∈ STATIC_ASSETS) /\
  isAPIRequest (location ex_world) = false /\
  exists r,
    net_ok (request_of ex_world "/styles.css") = Fulfilled r /\
    on_fetch net_down (mkRequest (resolve ex_world "/styles.css") "GET" "no-cors")
             (on_activate (on_install net_ok ex_world).2).2 =
    (RespondWith (Ok (Some r)), (on_activate (on_install net_ok ex_world).2).2).
Proof.
  assert (Hok : forall p, p ∈ STATIC_ASSETS ->
            accepted (net_ok (request_of ex_world p))).
  { intros p _. exists ex_ok. split; reflexivity. }
  assert (Hin : "/styles.css" ∈ STATIC_ASSETS) by (right; right; left).
  split; [exact Hok|]. split; [exact Hin|]. split; [reflexivity|].
  exact (precached_assets_served_offline net_ok net_down ex_world
           "/styles.css" "no-cors" Hok Hin eq_refl).
Defined.

(** X12.  On a site whose own hostname contains an API domain the precached
    assets are never used: the fetch listener hands every same-origin
    GET request to [networkFirst], which looks only into the runtime
    generation; so after install and activate, with nothing in the
    runtime generation, a request made while the network is down is
    answered with the transport failure, manifest asset or not. *)
Theorem same_origin_requests_fail_offline_on_api_host (net net' : Network)
    (w : World) (path mode : string) :
  isAPIRequest (location w) = true ->
  (forall id, entry_of RUNTIME_CACHE id w = None) ->
  net' (mkRequest (resolve w path) "GET" mode) = Rejected ->
  (on_fetch net' (mkRequest (resolve w path) "GET" mode)
            (on_activate (on_install net w).2).2).1 =
  RespondWith (Throw (TransportFailure (mkRequest (resolve w path) "GET" mode))).
Proof.
  intros Hhost Hruntime Hdown.
  set (w2 := (on_activate (on_install net w).2).2).
  set (request := mkRequest (resolve w path) "GET" mode) in *.
  assert (Hloc : location w2 = location w).
  { unfold w2. rewrite on_activate_location. apply on_install_location. }
  assert (Hentry : entry_of RUNTIME_CACHE (identity request) w2 = None).
  { unfold w2. rewrite on_activate_entry, decide_True by (by right).
    rewrite on_install_other_entries; [apply Hruntime|].
    left. discriminate. }
  unfold on_fetch. cbn [url method request]. rewrite Hloc.
  cbn [String.eqb Ascii.eqb Bool.eqb negb origin resolve].
  rewrite String.eqb_refl. cbn [negb andb].
  assert (Hapi : isAPIRequest (resolve w path) = true) by exact Hhost.
  rewrite Hapi. unfold respondWith. cbn [fst].
  rewrite networkFirst_eq, Hdown.
  by rewrite (matched_GET RUNTIME_CACHE request w2 eq_refl), Hentry.
Qed.

Lemma same_origin_requests_fail_offline_on_api_host_witness :
  isAPIRequest (location ex_cdn_world) = true /\
  (forall id, entry_of RUNTIME_CACHE id ex_cdn_world = None) /\
  net_down (mkRequest (resolve ex_cdn_world "/index.html") "GET" "navigate")
    = Rejected /\
  (on_fetch net_down
     (mkRequest (resolve ex_cdn_world "/index.html") "GET" "navigate")
     (on_activate (on_install net_ok ex_cdn_world).2).2).1 =
  RespondWith
    (Throw (TransportFailure
              (mkRequest (resolve ex_cdn_world "/index.html") "GET"
                         "navigate"))).
Proof.
  split; [reflexivity|]. split; [intros id; reflexivity|].
  split; [reflexivity|].
  apply (same_origin_requests_fail_offline_on_api_host net_ok net_down
           ex_cdn_world "/index.html" "navigate");
    [reflexivity | intros id; reflexivity | reflexivity].
Defined.

(** ** The message listener *)

Lemma filter_none {A} (P : A -> Prop) `{!forall x, Decision (P x)}
    (l : list A) :
  (forall x, x ∈ l -> ~ P x) -> filter P l = [].
Proof.
  induction l as [|a l IH]; intros Hno; [done|].
  rewrite filter_cons_False by (apply Hno; by left).
  apply IH. intros x Hx. apply Hno. by right.
Qed.

Lemma commit_all_empty (ps : list PendingPut) : foldl commit_put [] ps = [].
Proof.
  induction ps as [|p ps IH]; [done|]. cbn [foldl].
  assert (Hp : commit_put [] p = []).
  { unfold commit_put. destruct (decide _); [|done].
    by destruct (status (put_response p) =? 206). }
  by rewrite Hp.
Qed.

(** X13.  The "clearCache" message empties the store: no generation is left,
    and none comes back when the writes dispatched earlier settle, so no
    request has an entry any more.  No message with another action
    touches the store or the writes to settle. *)
Theorem on_message_clearCache (w : World) :
  (on_message "clearCache" w).1 = Ok tt /\
  caches (on_message "clearCache" w).2 = [] /\
  caches (settle (on_message "clearCache" w).2) = [] /\
  (forall name id,
     entry_of name id (settle (on_message "clearCache" w).2) = None) /\
  (forall action, action ≠ "clearCache" ->
     caches (on_message action w).2 = caches w /\
     pending (on_message action w).2 = pending w).
Proof.
  assert (Hclear : on_message "clearCache" w = (Ok tt, set_caches [] w)).
  { unfold on_message, bind. cbn [String.eqb Ascii.eqb Bool.eqb ret].
    unfold caches_keys. rewrite mapM_delete_eq, foldl_delete_filter.
    do 2 f_equal. apply filter_none. intros nc Hnc Hnot. apply Hnot.
    by apply list_elem_of_fmap_2. }
  rewrite Hclear. cbn [fst snd caches set_caches].
  assert (Hsettle : caches (settle (set_caches [] w)) = []).
  { unfold settle. cbn [caches clear_pending set_caches].
    apply commit_all_empty. }
  split; [done|]. split; [done|]. split; [done|]. split.
  - intros name id. unfold entry_of. by rewrite Hsettle.
  - intros action Haction. apply String.eqb_neq in Haction.
    unfold on_message, bind. rewrite Haction.
    by destruct (String.eqb action "skipWaiting").
Qed.

(** ** Invariants of the worker's life *)

Lemma names_storage_update (name : string)
    (f : gmap (string * string) Response -> gmap (string * string) Response)
    (cs : list (string * gmap (string * string) Response)) :
  (storage_update name f cs).*1 = cs.*1.
Proof.
  unfold storage_update. induction cs as [|[n c] cs IH]; [done|].
  rewrite !fmap_cons, IH. cbn [fst snd]. by destruct (decide (n = name)).
Qed.

Lemma names_commit_all (ps : list PendingPut)
    (cs : list (string * gmap (string * string) Response)) :
  (foldl commit_put cs ps).*1 = cs.*1.
Proof.
  revert cs. induction ps as [|p ps IH]; intros cs; [done|].
  cbn [foldl]. rewrite IH. unfold commit_put.
  destruct (decide _); [|done].
  destruct (status (put_response p) =? 206); [done|].
  apply names_storage_update.
Qed.

Lemma names_write_batch (cache : string) (l : list (Request * Response))
    (cs : list (string * gmap (string * string) Response)) :
  (write_batch cache l cs).*1 = cs.*1.
Proof.
  unfold write_batch. revert cs. induction l as [|qr l IH]; intros cs; [done|].
  cbn [foldl]. by rewrite IH, names_storage_update.
Qed.

Lemma names_storage_open (name n : string)
    (cs : list (string * gmap (string * string) Response)) :
  n ∈ (storage_open name cs).*1 -> n ∈ cs.*1 \/ n = name.
Proof.
  unfold storage_open. destruct (storage_lookup name cs); [by left|].
  rewrite fmap_app, elem_of_app. intros [Hin|Hin]; [by left|].
  apply list_elem_of_singleton in Hin. by right.
Qed.

Lemma names_filter (P : string * gmap (string * string) Response -> Prop)
    `{!forall nc, Decision (P nc)} (n : string)
    (cs : list (string * gmap (string * string) Response)) :
  n ∈ (filter P cs).*1 -> n ∈ cs.*1.
Proof.
  intros Hin. apply list_elem_of_fmap in Hin as [nc [-> Hnc]].
  apply list_elem_of_filter in Hnc as [_ Hnc].
  by apply list_elem_of_fmap_2.
Qed.

Lemma step_names w w' name :
  step w w' ->
  name ∈ (caches w').*1 -> name ∈ (caches w).*1 \/ current name.
Proof.
  intros Hstep. destruct Hstep as
    [net request w|net request w|net request w|w|net w|w|action w].
  - unfold on_fetch.
    destruct (negb (String.eqb (method request) "GET")); [by left|].
    destruct (negb _ && negb _); [by left|].
    destruct (isAPIRequest (url request)); unfold respondWith; cbn [snd].
    + destruct (networkFirst_pending net request w) as [-> _].
      intros Hin. apply names_storage_open in Hin as [?| ->];
        [by left|right; by right].
    + destruct (cacheFirst_pending net request w) as [-> _].
      intros Hin. apply names_storage_open in Hin as [?| ->];
        [by left|right; by left].
  - destruct (cacheFirst_pending net request w) as [-> _].
    intros Hin. apply names_storage_open in Hin as [?| ->];
      [by left|right; by left].
  - destruct (networkFirst_pending net request w) as [-> _].
    intros Hin. apply names_storage_open in Hin as [?| ->];
      [by left|right; by right].
  - unfold settle. cbn [caches clear_pending set_caches].
    rewrite names_commit_all. by left.
  - rewrite on_install_eq.
    destruct (fetch_batch net (request_of w <$> STATIC_ASSETS)) as [l|];
      cbn [snd caches set_skipWaiting set_caches log_fetches];
      rewrite ?names_write_batch;
      intros Hin; apply names_storage_open in Hin as [?| ->];
      try (by left); right; by left.
  - rewrite on_activate_eq. cbn [snd caches set_claimed set_caches].
    intros Hin. left. by apply names_filter in Hin.
  - unfold on_message, bind.
    destruct (String.eqb action "skipWaiting");
      destruct (String.eqb action "clearCache");
      unfold skipWaiting, ret, caches_keys; try (by left);
      rewrite mapM_delete_eq; cbn [snd caches set_caches set_skipWaiting];
      rewrite foldl_delete_filter; intros Hin; left;
      by apply names_filter in Hin.
Qed.

(** X14.  The worker creates no generation but its own two: whatever
    listeners and strategies run and whenever writes settle, every
    generation in the store was there at the start or is named
    [CACHE_NAME] or [RUNTIME_CACHE]. *)
Theorem only_own_generations_created (w w' : World) (name : string) :
  rtc step w w' ->
  name ∈ (caches w').*1 ->
  name ∈ (caches w).*1 \/ name = CACHE_NAME \/ name = RUNTIME_CACHE.
Proof.
  induction 1 as [|w w1 w' Hstep _ IH]; [by left|].
  intros Hin. destruct (IH Hin) as [Hin1|Hcur]; [|by right].
  apply (step_names w w1 name Hstep Hin1).
Qed.

Lemma only_own_generations_created_witness :
  rtc step ex_world (settle (on_fetch net_ok ex_api ex_world).2) /\
  (RUNTIME_CACHE ∈ (caches (settle (on_fetch net_ok ex_api ex_world).2)).*1) /\
  (RUNTIME_CACHE ∈ (caches ex_world).*1 \/
   RUNTIME_CACHE = CACHE_NAME \/ RUNTIME_CACHE = RUNTIME_CACHE).
Proof.
  assert (Hreach : rtc step ex_world
                     (settle (on_fetch net_ok ex_api ex_world).2)).
  { eapply rtc_l; [apply (step_fetch net_ok ex_api)|].
    eapply rtc_l; [apply step_settle|]. apply rtc_refl. }
  assert (Hin : RUNTIME_CACHE ∈
                (caches (settle (on_fetch net_ok ex_api ex_world).2)).*1).
  { vm_compute. left. }
  split; [exact Hreach|]. split; [exact Hin|].
  exact (only_own_generations_created _ _ _ Hreach Hin).
Defined.

Lemma entries_sat_open (P : string -> Response -> Prop) (name : string)
    (cs : list (string * gmap (string * string) Response)) :
  entries_sat P cs -> entries_sat P (storage_open name cs).
Proof.
  intros Hcs n c id r Hin Hid.
  apply elem_of_storage_open in Hin as [Hin| ->].
  - by apply (Hcs n c id r).
  - by rewrite lookup_empty in Hid.
Qed.

Lemma entries_sat_filter (P : string -> Response -> Prop)
    (Q : string * gmap (string * string) Response -> Prop)
    `{!forall nc, Decision (Q nc)}
    (cs : list (string * gmap (string * string) Response)) :
  entries_sat P cs -> entries_sat P (filter Q cs).
Proof.
  intros Hcs n c id r Hin Hid. apply list_elem_of_filter in Hin as [_ Hin].
  by apply (Hcs n c id r).
Qed.

Lemma entries_sat_insert (P : string -> Response -> Prop) (name : string)
    (key : string * string) (response : Response)
    (cs : list (string * gmap (string * string) Response)) :
  P name response ->
  entries_sat P cs ->
  entries_sat P (storage_update name (insert key response) cs).
Proof.
  intros Hresponse Hcs n c id r Hin Hid. unfold storage_update in Hin.
  apply list_elem_of_fmap in Hin as [[n' c'] [Heq Hin]]. simpl in Heq.
  destruct (decide (n' = name)) as [->|Hne].
  - injection Heq as -> ->.
    destruct (decide (key = id)) as [<-|Hk].
    + rewrite lookup_insert_eq in Hid. by injection Hid as <-.
    + rewrite lookup_insert_ne in Hid by done. by apply (Hcs name c' id r).
  - injection Heq as -> ->. by apply (Hcs n' c' id r).
Qed.

Lemma entries_sat_commit_all (P : string -> Response -> Prop)
    (ps : list PendingPut)
    (cs : list (string * gmap (string * string) Response)) :
  (forall p, p ∈ ps -> P (put_cache p) (put_response p)) ->
  entries_sat P cs -> entries_sat P (foldl commit_put cs ps).
Proof.
  revert cs. induction ps as [|p ps IH]; intros cs Hps Hcs; [done|].
  cbn [foldl]. apply IH; [intros p' Hp'; apply Hps; by right|].
  unfold commit_put. destruct (decide _); [|done].
  destruct (status (put_response p) =? 206); [done|].
  apply entries_sat_insert; [|done]. apply Hps. by left.
Qed.

Lemma entries_sat_write_batch (P : string -> Response -> Prop)
    (cache : string) (l : list (Request * Response))
    (cs : list (string * gmap (string * string) Response)) :
  (forall qr, qr ∈ l -> P cache qr.2) ->
  entries_sat P cs -> entries_sat P (write_batch cache l cs).
Proof.
  unfold write_batch.
  revert cs. induction l as [|qr l IH]; intros cs Hl Hcs; [done|].
  cbn [foldl]. apply IH; [intros qr' Hqr'; apply Hl; by right|].
  apply entries_sat_insert; [|done]. apply Hl. by left.
Qed.

Lemma fetch_batch_Some_addable (net : Network) (qs : list Request)
    (l : list (Request * Response)) :
  fetch_batch net qs = Some l -> forall qr, qr ∈ l -> addable qr.2 = true.
Proof.
  revert l. induction qs as [|q qs IH]; intros l; simpl.
  - intros [= <-] qr Hqr. by apply elem_of_nil in Hqr.
  - destruct (net q) as [r|]; [|done].
    destruct (addable r) eqn:Hr; [|done].
    destruct (fetch_batch net qs) as [l'|]; [|done].
    intros [= <-] qr Hqr. apply elem_of_cons in Hqr as [->|Hqr]; [done|].
    by apply (IH l').
Qed.

Lemma strategy_cached_ok (net : Network) (request : Request) (w w1 : World)
    (name : string) :
  (caches w1 = storage_open name (caches w) /\
   exists new,
     pending w1 = pending w ++ new /\
     (new = [] \/
      exists r, net request = Fulfilled r /\ status r = 200 /\
                new = [mkPendingPut name request (clone r)])) ->
  cached_ok w -> cached_ok w1.
Proof.
  intros [Hcaches [new [Hpending Hnew]]] [Hp Hc]. split.
  - intros p. rewrite Hpending, elem_of_app. intros [Hin|Hin]; [by apply Hp|].
    destruct Hnew as [-> | [r [_ [Hs ->]]]]; [by apply elem_of_nil in Hin|].
    apply list_elem_of_singleton in Hin as ->. done.
  - rewrite Hcaches. by apply entries_sat_open.
Qed.

Lemma step_cached_ok (w w' : World) :
  step w w' -> cached_ok w -> cached_ok w'.
Proof.
  intros Hstep Hw. destruct Hstep as
    [net request w|net request w|net request w|w|net w|w|action w].
  - unfold on_fetch.
    destruct (negb (String.eqb (method request) "GET")); [done|].
    destruct (negb _ && negb _); [done|].
    destruct (isAPIRequest (url request)); unfold respondWith; cbn [snd].
    + eapply strategy_cached_ok; [apply networkFirst_pending|done].
    + eapply strategy_cached_ok; [apply cacheFirst_pending|done].
  - eapply strategy_cached_ok; [apply cacheFirst_pending|done].
  - eapply strategy_cached_ok; [apply networkFirst_pending|done].
  - destruct Hw as [Hp Hc]. split.
    + intros p Hin. by apply elem_of_nil in Hin.
    + unfold settle. cbn [caches clear_pending set_caches].
      apply entries_sat_commit_all; [|done]. intros p Hin.
      split; [unfold addable; by rewrite (Hp p Hin)|].
      intros _. by apply Hp.
  - destruct Hw as [Hp Hc]. rewrite on_install_eq.
    destruct (fetch_batch net (request_of w <$> STATIC_ASSETS)) as [l|] eqn:Hl;
      (split; [done|]);
      cbn [snd caches set_skipWaiting set_caches log_fetches].
    + apply entries_sat_write_batch; [|by apply entries_sat_open].
      intros qr Hqr. split; [|done].
      by apply (fetch_batch_Some_addable net _ _ Hl).
    + by apply entries_sat_open.
  - destruct Hw as [Hp Hc]. rewrite on_activate_eq. split; [done|].
    cbn [snd caches set_claimed set_caches]. by apply entries_sat_filter.
  - destruct Hw as [Hp Hc]. unfold on_message, bind.
    destruct (String.eqb action "skipWaiting");
      destruct (String.eqb action "clearCache");
      unfold skipWaiting, ret, caches_keys; try done;
      rewrite mapM_delete_eq; (split; [done|]);
      cbn [snd caches set_caches set_skipWaiting];
      rewrite foldl_delete_filter; by apply entries_sat_filter.
Qed.

(** X15.  No error response is ever cached: from a state without one (the
    empty store, say), whatever listeners and strategies run on whatever
    requests and networks, every entry of every generation has a status
    between 200 and 299 other than 206, and outside the static
    generation exactly 200. *)
Theorem no_error_response_cached (w w' : World) :
  rtc step w w' ->
  cached_ok w ->
  cached_ok w' /\
  forall name id r,
    entry_of name id w' = Some r ->
    200 <= status r <= 299 /\ status r ≠ 206 /\
    (name ≠ CACHE_NAME -> status r = 200).
Proof.
  intros Hreach Hw.
  assert (Hw' : cached_ok w').
  { induction Hreach as [|w w1 w' Hstep _ IH]; [done|].
    by apply IH, (step_cached_ok w). }
  split; [done|]. intros name id r Hentry.
  unfold entry_of, stored in Hentry.
  destruct (storage_lookup name (caches w')) as [c|] eqn:Hc; [|done].
  apply storage_lookup_elem in Hc.
  destruct Hw' as [_ Hentries].
  destruct (Hentries name c id r Hc Hentry) as [Hadd Hruntime].
  unfold addable in Hadd.
  apply andb_true_iff in Hadd as [Hadd Hnot].
  apply andb_true_iff in Hadd as [Hlo Hhi].
  apply Z.leb_le in Hlo. apply Z.leb_le in Hhi.
  apply negb_true_iff, Z.eqb_neq in Hnot. done.
Qed.

Lemma no_error_response_cached_witness :
  rtc step ex_world (settle (on_fetch net_ok ex_api ex_world).2) /\
  cached_ok ex_world /\
  forall name id r,
    entry_of name id (settle (on_fetch net_ok ex_api ex_world).2) = Some r ->
    200 <= status r <= 299 /\ status r ≠ 206 /\
    (name ≠ CACHE_NAME -> status r = 200).
Proof.
  assert (Hreach : rtc step ex_world
                     (settle (on_fetch net_ok ex_api ex_world).2)).
  { eapply rtc_l; [apply (step_fetch net_ok ex_api)|].
    eapply rtc_l; [apply step_settle|]. apply rtc_refl. }
  assert (Hempty : cached_ok ex_world).
  { split.
    - intros p Hin. inversion Hin.
    - intros name c id r Hin. inversion Hin. }
  split; [exact Hreach|]. split; [exact Hempty|].
  exact (proj2 (no_error_response_cached _ _ Hreach Hempty)).
Defined.

(** ** The push listener *)

Section PushProperties.

Context {Number : Type} (number_falsy : Number -> bool).

Lemma or_else_truthy (v : option (JSON Number)) (fallback : JSON Number) :
  truthy Number number_falsy (Some fallback) = true ->
  truthy Number number_falsy (Some (or_else Number number_falsy v fallback))
  = true.
Proof.
  intros Hfallback. unfold or_else. destruct v as [x|]; [|done].
  by destruct (truthy Number number_falsy (Some x)) eqn:Hx.
Qed.

(** X16.  The push listener shows a notification unless the payload cannot be
    parsed or parses to [null]: with such a payload, and with no other,
    an exception leaves the listener before [showNotification] is
    called (a SyntaxError from [json()], a TypeError from [data.title]
    on [null]). *)
Theorem on_push_throws_iff (payload : PushPayload Number) :
  ((exists e, on_push Number number_falsy payload = PushThrows e) <->
   payload = Unparsable \/ payload = Parsed JNull) /\
  on_push Number number_falsy Unparsable = PushThrows SyntaxError /\
  on_push Number number_falsy (Parsed JNull) = PushThrows TypeError.
Proof.
  split; [|done]. split.
  - intros [e He]. destruct payload as [| |v]; [done|by left|].
    destruct v; try done. by right.
  - intros [-> | ->]; eexists; reflexivity.
Qed.

(** X17.  A notification the push listener shows never has a title or a body
    that counts as false (none is empty): each is the payload's member
    when that counts as true and the built-in text otherwise; the
    payload itself is passed on as the notification's data. *)
Theorem on_push_shown (payload : PushPayload Number)
    (n : Notification Number) :
  on_push Number number_falsy payload = Shown n ->
  truthy Number number_falsy (Some (n_title n)) = true /\
  truthy Number number_falsy (Some (n_body n)) = true /\
  n_data n = match payload with Parsed v => v | _ => JObject [] end /\
  (forall x, read (n_data n) "title" = Some (Some x) ->
     truthy Number number_falsy (Some x) = true -> n_title n = x) /\
  (forall t, read (n_data n) "title" = Some t ->
     truthy Number number_falsy t = false ->
     n_title n = JString "حان وقت الصلاة") /\
  (forall x, read (n_data n) "body" = Some (Some x) ->
     truthy Number number_falsy (Some x) = true -> n_body n = x) /\
  (forall b, read (n_data n) "body" = Some b ->
     truthy Number number_falsy b = false ->
     n_body n = JString "لا تفوت الصلاة").
Proof.
  unfold on_push.
  destruct payload as [| |v]; [|done|].
  - intros [= <-]. cbn. repeat split; try done; by intros t [= <-].
  - destruct (read v "title") as [t|] eqn:Ht; [|done].
    destruct (read v "body") as [b|] eqn:Hb; [|done].
    intros [= <-]. cbn [n_title n_body n_data].
    split; [by apply or_else_truthy|]. split; [by apply or_else_truthy|].
    split; [done|]. rewrite Ht, Hb. unfold or_else. repeat split.
    + intros x [= ->] Hx. by rewrite Hx.
    + intros t' [= <-] Hx. destruct t as [x|]; [|done]. by rewrite Hx.
    + intros x [= ->] Hx. by rewrite Hx.
    + intros b' [= <-] Hx. destruct b as [x|]; [|done]. by rewrite Hx.
Qed.

End PushProperties.

Lemma on_push_shown_witness :
  on_push Z (Z.eqb 0)
    (Parsed (JObject [("title", JString ""); ("body", JNumber 3)])) =
    Shown (mkNotification (JString "حان وقت الصلاة") (JNumber 3)
             "/icons/icon-192x192.png" "/icons/badge-72x72.png"
             [200; 100; 200]
             (JObject [("title", JString ""); ("body", JNumber 3)])
             [("open", "فتح التطبيق"); ("close", "إغلاق")]) /\
  truthy Z (Z.eqb 0) (Some (JString "حان وقت الصلاة")) = true /\
  truthy Z (Z.eqb 0) (Some (JNumber 3)) = true.
Proof.
  split; [reflexivity|].
  destruct (on_push_shown (Z.eqb 0)
              (Parsed (JObject [("title", JString ""); ("body", JNumber 3)]))
              _ eq_refl) as (Htitle & Hbody & _).
  split; [exact Htitle | exact Hbody].
Defined.
